(** * authenticationByNFT: the caching IPFS proxy and the AES-GCM envelope

    A shallow embedding of the three JavaScript units that carry the logic of
    the repository:

    - the serverless route [api/ipfsProxy] (module [IpfsProxy]): a handler
      over a process-wide cache object with a five minute time-to-live;
    - the one-shot producer [encrypt.mjs] (module [Producer]): encrypts a
      file under AES-GCM and writes [IV | ciphertext] plus a key file;
    - the browser-side consumer [loadAndDisplay] (module [Consumer]): fetches
      the envelope and the key material, decrypts and renders.

    Bytes are integers ([Z]); a [Uint8Array] is a [list Z].  Time is the
    millisecond count returned by [Date.now()].  The network is an input of
    each call: what [fetch] would answer at that moment.  The cipher that
    [crypto.subtle] provides is written out (modules [Aes], [Gcm] and
    [Subtle]) so that both scripts can be evaluated on concrete files. *)

From Stdlib Require Import ZArith List Bool String Ascii Lia DecimalString.
From Stdlib Require Import QArith DecimalZ.
From stdpp Require Import gmap strings list fin_maps.

Open Scope string_scope.
Open Scope list_scope.
Open Scope Z_scope.

(** ** JavaScript truthiness of the values the sources test *)

Module Js.

(** [!s] is true for the empty string only. *)
Definition truthy (s : string) : bool := negb (String.eqb s "").

(** [v || d] where [v] is [null]/[undefined] or a string. *)
Definition or_else (v : option string) (d : string) : string :=
  match v with
  | Some s => if truthy s then s else d
  | None => d
  end.

(** What a [throw] or a rejected promise carries. *)
Inductive exn : Type :=
| Error (message : string)
| TypeError (message : string)
| SyntaxError (message : string)
| RangeError
| DataError
| OperationError.

(** [String(n)] for an integer. *)
Definition to_string (n : Z) : string := NilZero.string_of_int (Z.to_int n).

(** [new Uint8Array(n)] *)
Definition Uint8Array_new (n : nat) : list Z := repeat 0 n.

(** [new Uint8Array(array)]: each number is reduced modulo 256. *)
Definition Uint8Array_from (array : list Z) : list Z :=
  map (fun x => x mod 256) array.

(** [target.set(source, offset)], a [RangeError] when [source] does not
    fit. *)
Definition set (target source : list Z) (offset : nat) : exn + list Z :=
  if (offset + length source <=? length target)%nat then
    inr (take offset target ++ source
           ++ drop (offset + length source) target)
  else inl RangeError.

(** [bytes.slice(start, end)] and [bytes.slice(start)], for indices that
    are not negative. *)
Definition slice (bytes : list Z) (start stop : nat) : list Z :=
  drop start (take stop bytes).

Definition slice_from (bytes : list Z) (start : nat) : list Z :=
  drop start bytes.

End Js.

(** ** The retrieval proxy: [export default async function handler(req, res)] *)

Module IpfsProxy.

(** The value stored under [cache[cid]].  The cache object [let cache = {}]
    is a finite map from strings: a name that the object only inherits
    ([constructor], [__proto__], ...) reads as an object without
    [timestamp], the comparison with [CACHE_TTL] is then false, and the
    handler goes on as for an absent key. *)
Record CacheEntry : Type := {
  data : list Z;
  contentType : option string;
  timestamp : Z
}.

(** [const CACHE_TTL = 5 * 60 * 1000;] *)
Definition CACHE_TTL : Z := 5 * 60 * 1000.

(** [req.query.cid]: [undefined] when the parameter is absent, else the
    string given. *)
Record request : Type := { query_cid : option string }.

(** What [res] has become when the handler returns. *)
Inductive payload : Type :=
| NoBody
| JsonError (error : string)
| Sent (bytes : list Z).

Record response : Type := {
  statusCode : Z;
  headers : list (string * string);
  body : payload
}.

Definition fresh_res : response :=
  {| statusCode := 200; headers := []; body := NoBody |}.

(** [res.setHeader(name, value)] replaces an earlier value of that name. *)
Definition setHeader (name value : string) (res : response) : response :=
  {| statusCode := statusCode res;
     headers := filter (fun h => negb (String.eqb (fst h) name)) (headers res)
                  ++ [(name, value)];
     body := body res |}.

Definition status (code : Z) (res : response) : response :=
  {| statusCode := code; headers := headers res; body := body res |}.

Definition json (error : string) (res : response) : response :=
  {| statusCode := statusCode res; headers := headers res;
     body := JsonError error |}.

Definition send (bytes : list Z) (res : response) : response :=
  {| statusCode := statusCode res; headers := headers res;
     body := Sent bytes |}.

Fixpoint getHeader (name : string) (hs : list (string * string))
  : option string :=
  match hs with
  | [] => None
  | (n, v) :: rest => if String.eqb n name then Some v else getHeader name rest
  end.

(** The open cross-origin header. *)
Definition cors_open (res : response) : bool :=
  match getHeader "Access-Control-Allow-Origin" (headers res) with
  | Some v => String.eqb v "*"
  | None => false
  end.

(** What the gateway does when asked: [fetch] rejects, or resolves to a
    response whose body can be read or whose read rejects. *)
Inductive body_read : Type :=
| BodyBytes (bytes : list Z)
| BodyThrows (message : string).

Inductive fetch_result : Type :=
| FetchThrows (message : string)
| FetchResponse (status : Z) (content_type : option string)
                (arrayBuffer : body_read).

(** [response.ok]: the status is in the range 200-299. *)
Definition ok (status : Z) : bool := (200 <=? status) && (status <=? 299).

Definition ipfsUrl (cid : string) : string :=
  String.append "https://gateway.pinata.cloud/ipfs/" cid.

(** The result of one call: the response, the cache object afterwards, and
    the upstream requests issued, in order. *)
Record outcome : Type := {
  out_res : response;
  out_cache : gmap string CacheEntry;
  out_upstream : list string
}.

(** [cache[cid] && (now - cache[cid].timestamp < CACHE_TTL)] *)
Definition valid_entry (cache : gmap string CacheEntry) (cid : string)
    (now : Z) : option CacheEntry :=
  match cache !! cid with
  | Some e => if now - timestamp e <? CACHE_TTL then Some e else None
  | None => None
  end.

Definition handler (fetch : string -> fetch_result) (now : Z)
    (req : request) (cache : gmap string CacheEntry) : outcome :=
  match query_cid req with
  | None =>
      {| out_res := json "Missing CID" (status 400 fresh_res);
         out_cache := cache; out_upstream := [] |}
  | Some cid =>
      if negb (Js.truthy cid) then
        {| out_res := json "Missing CID" (status 400 fresh_res);
           out_cache := cache; out_upstream := [] |}
      else
        match valid_entry cache cid now with
        | Some e =>
            let res := setHeader "Access-Control-Allow-Origin" "*" fresh_res in
            let res := setHeader "Content-Type"
                         (Js.or_else (contentType e) "application/octet-stream")
                         res in
            {| out_res := send (data e) (status 200 res);
               out_cache := cache; out_upstream := [] |}
        | None =>
            let url := ipfsUrl cid in
            match fetch url with
            | FetchThrows message =>
                {| out_res := json message (status 500 fresh_res);
                   out_cache := cache; out_upstream := [url] |}
            | FetchResponse st ctype buffer =>
                if negb (ok st) then
                  {| out_res := json "Failed to fetch IPFS content"
                                  (status st fresh_res);
                     out_cache := cache; out_upstream := [url] |}
                else
                  match buffer with
                  | BodyThrows message =>
                      {| out_res := json message (status 500 fresh_res);
                         out_cache := cache; out_upstream := [url] |}
                  | BodyBytes dataBuffer =>
                      let entry := {| data := dataBuffer;
                                      contentType := ctype;
                                      timestamp := now |} in
                      let res := setHeader "Access-Control-Allow-Origin" "*"
                                   fresh_res in
                      let res := setHeader "Content-Type"
                                   (Js.or_else ctype "application/octet-stream")
                                   res in
                      {| out_res := send dataBuffer (status 200 res);
                         out_cache := <[cid := entry]> cache;
                         out_upstream := [url] |}
                  end
            end
        end
  end.

(** A request as the process sees it: the query, the clock reading and the
    state of the network at that moment. *)
Record call : Type := {
  call_fetch : string -> fetch_result;
  call_now : Z;
  call_req : request
}.

Definition step (cache : gmap string CacheEntry) (c : call) : outcome :=
  handler (call_fetch c) (call_now c) (call_req c) cache.

(** The cache object after requests handled one after the other by the
    same process. *)
Definition final_cache (calls : list call) (cache : gmap string CacheEntry)
  : gmap string CacheEntry :=
  fold_left (fun m c => out_cache (step m c)) calls cache.

(** The response of both success paths. *)
Definition success (bytes : list Z) (ctype : option string) : response :=
  {| statusCode := 200;
     headers := [("Access-Control-Allow-Origin", "*");
                 ("Content-Type",
                  Js.or_else ctype "application/octet-stream")];
     body := Sent bytes |}.

Definition failure (code : Z) (error : string) : response :=
  {| statusCode := code; headers := []; body := JsonError error |}.

Definition get (cid : string) : request := {| query_cid := Some cid |}.

(** The five shapes the result of a call can have. *)
Inductive run (fetch : string -> fetch_result) (now : Z)
    (cache : gmap string CacheEntry) : request -> outcome -> Prop :=
| run_missing req :
    query_cid req = None \/ query_cid req = Some "" ->
    run fetch now cache req
        {| out_res := failure 400 "Missing CID";
           out_cache := cache; out_upstream := [] |}
| run_hit cid e :
    cid <> "" -> valid_entry cache cid now = Some e ->
    run fetch now cache (get cid)
        {| out_res := success (data e) (contentType e);
           out_cache := cache; out_upstream := [] |}
| run_rejected cid message :
    cid <> "" -> valid_entry cache cid now = None ->
    run fetch now cache (get cid)
        {| out_res := failure 500 message;
           out_cache := cache; out_upstream := [ipfsUrl cid] |}
| run_not_ok cid st :
    cid <> "" -> valid_entry cache cid now = None -> ok st = false ->
    run fetch now cache (get cid)
        {| out_res := failure st "Failed to fetch IPFS content";
           out_cache := cache; out_upstream := [ipfsUrl cid] |}
| run_fetched cid bytes ctype :
    cid <> "" -> valid_entry cache cid now = None ->
    run fetch now cache (get cid)
        {| out_res := success bytes ctype;
           out_cache :=
             <[cid := {| data := bytes; contentType := ctype;
                         timestamp := now |}]> cache;
           out_upstream := [ipfsUrl cid] |}.

End IpfsProxy.

(** ** The block cipher behind ["AES-GCM"] (FIPS-197)

    The sources never implement the cipher: they call [crypto.subtle] with
    [{ name: "AES-GCM" }].  The cipher is written out here, as the standard
    defines it, so that the producer and the consumer can be run inside the
    logic.  A state is the list of its sixteen bytes, column after column:
    [s[r, c]] is at index [r + 4 * c]. *)

Module Aes.

Definition at_ (s : list Z) (i : nat) : Z := nth i s 0.

(** Multiplication by [x] in GF(2^8) modulo [x^8 + x^4 + x^3 + x + 1]. *)
Definition xtime (a : Z) : Z :=
  let b := Z.shiftl a 1 in
  if Z.testbit b 8 then Z.land (Z.lxor b 0x11b) 0xff else b.

Fixpoint gmul_loop (n : nat) (a b acc : Z) : Z :=
  match n with
  | O => acc
  | S n' =>
      gmul_loop n' (xtime a) (Z.shiftr b 1)
                (if Z.odd b then Z.lxor acc a else acc)
  end.

Definition gmul (a b : Z) : Z := gmul_loop 8 a b 0.

(** The multiplicative inverse, [a^254], with [0] sent to [0]. *)
Definition ginv (a : Z) : Z := Nat.iter 254 (gmul a) 1.

Definition rotl8 (x : Z) (n : Z) : Z :=
  Z.land (Z.lor (Z.shiftl x n) (Z.shiftr x (8 - n))) 0xff.

(** The S-box as FIPS-197 5.1.1 derives it: inverse, then the affine map. *)
Definition sbox_of (a : Z) : Z :=
  let b := ginv a in
  Z.lxor (Z.lxor (Z.lxor (Z.lxor (Z.lxor b (rotl8 b 1)) (rotl8 b 2))
                         (rotl8 b 3)) (rotl8 b 4)) 0x63.

Definition SBOX : list Z :=
  Eval vm_compute in map (fun i => sbox_of (Z.of_nat i)) (seq 0 256).

Definition sub_byte (x : Z) : Z := nth (Z.to_nat x) SBOX 0.

Definition sub_bytes (s : list Z) : list Z := map sub_byte s.

Definition shift_rows (s : list Z) : list Z :=
  map (fun i => at_ s (i mod 4 + 4 * ((i / 4 + i mod 4) mod 4))%nat)
      (seq 0 16).

Definition mix_columns (s : list Z) : list Z :=
  map (fun i =>
         let c := (i / 4)%nat in
         let r := (i mod 4)%nat in
         let a k := at_ s ((r + k) mod 4 + 4 * c)%nat in
         Z.lxor (Z.lxor (Z.lxor (gmul (a 0%nat) 2) (gmul (a 1%nat) 3))
                        (a 2%nat)) (a 3%nat))
      (seq 0 16).

Definition add_round_key (s rk : list Z) : list Z :=
  map (fun i => Z.lxor (at_ s i) (at_ rk i)) (seq 0 16).

Definition xor_word (a b : list Z) : list Z :=
  map (fun i => Z.lxor (at_ a i) (at_ b i)) (seq 0 4).

Definition rot_word (w : list Z) : list Z :=
  [at_ w 1; at_ w 2; at_ w 3; at_ w 0].

(** Key expansion (FIPS-197 5.2): [w] holds the words computed so far,
    [i] is the index of the next one, [rc] the round constant. *)
Fixpoint expand (fuel : nat) (Nk i : nat) (rc : Z) (w : list (list Z))
  : list (list Z) :=
  match fuel with
  | O => w
  | S fuel' =>
      let prev := nth (i - 1) w [] in
      let at_boundary := (i mod Nk =? 0)%nat in
      let temp :=
        if at_boundary then
          xor_word (map sub_byte (rot_word prev)) [rc; 0; 0; 0]
        else if ((6 <? Nk) && (i mod Nk =? 4))%nat then map sub_byte prev
        else prev in
      expand fuel' Nk (S i) (if at_boundary then xtime rc else rc)
             (w ++ [xor_word (nth (i - Nk) w []) temp])
  end.

Fixpoint words (n : nat) (bytes : list Z) : list (list Z) :=
  match n with
  | O => []
  | S n' => take 4 bytes :: words n' (drop 4 bytes)
  end.

Fixpoint round_keys (n : nat) (w : list (list Z)) : list (list Z) :=
  match n with
  | O => []
  | S n' => concat (take 4 w) :: round_keys n' (drop 4 w)
  end.

(** [Nk] words of key give [Nk + 6] rounds and [Nk + 7] round keys. *)
Definition key_expansion (key : list Z) : list (list Z) :=
  let Nk := (length key / 4)%nat in
  let total := (4 * (Nk + 7))%nat in
  round_keys (Nk + 7) (expand (total - Nk) Nk Nk 1 (words Nk key)).

Fixpoint rounds (rks : list (list Z)) (s : list Z) : list Z :=
  match rks with
  | [] => s
  | [last] => add_round_key (shift_rows (sub_bytes s)) last
  | rk :: rest =>
      rounds rest (add_round_key (mix_columns (shift_rows (sub_bytes s))) rk)
  end.

Definition cipher (key block : list Z) : list Z :=
  match key_expansion key with
  | [] => block
  | rk0 :: rest => rounds rest (add_round_key block rk0)
  end.

End Aes.

(** ** Galois/Counter Mode (NIST SP 800-38D), no associated data, 128-bit tag *)

Module Gcm.

(** A block as the integer its sixteen bytes spell, most significant first. *)
Definition int_of_bytes (bs : list Z) : Z :=
  fold_left (fun acc b => acc * 256 + b) bs 0.

Definition bytes_of_int (n : nat) (x : Z) : list Z :=
  map (fun i => Z.land (Z.shiftr x (8 * Z.of_nat (n - 1 - i))) 0xff) (seq 0 n).

(** The reduction constant [R = 11100001 || 0^120]. *)
Definition R : Z := Z.shiftl 0xe1 120.

(** Multiplication in GF(2^128), SP 800-38D algorithm 1: bit [i] of a block
    is bit [127 - i] of its integer. *)
Fixpoint mul_loop (n : nat) (x z v : Z) : Z :=
  match n with
  | O => z
  | S n' =>
      let i := (127 - n')%nat in
      let z' := if Z.testbit x (127 - Z.of_nat i) then Z.lxor z v else z in
      let v' := if Z.odd v then Z.lxor (Z.shiftr v 1) R else Z.shiftr v 1 in
      mul_loop n' x z' v'
  end.

Definition mul (x y : Z) : Z := mul_loop 128 x 0 y.

Fixpoint blocks (n : nat) (bs : list Z) : list Z :=
  match n with
  | O => []
  | S n' => int_of_bytes (take 16 bs) :: blocks n' (drop 16 bs)
  end.

Definition block_count (len : nat) : nat := ((len + 15) / 16)%nat.

(** [bs || 0^s] up to the next multiple of sixteen bytes. *)
Definition pad (bs : list Z) : list Z :=
  bs ++ repeat 0 (16 * block_count (length bs) - length bs)%nat.

(** [GHASH_H(X)] over the blocks of [bs], whose length is a multiple of 16. *)
Definition ghash (h : Z) (bs : list Z) : Z :=
  fold_left (fun y x => mul (Z.lxor y x) h) (blocks (length bs / 16) bs) 0.

(** [inc_32]: the last four bytes count modulo [2^32]. *)
Definition inc32 (cb : list Z) : list Z :=
  take 12 cb ++ bytes_of_int 4 ((int_of_bytes (drop 12 cb) + 1) mod 2 ^ 32).

Fixpoint keystream (n : nat) (key cb : list Z) : list Z :=
  match n with
  | O => []
  | S n' => Aes.cipher key cb ++ keystream n' key (inc32 cb)
  end.

(** [GCTR_K(ICB, X)]: the last block of key stream is cut to what is left
    of [x]. *)
Definition gctr (key icb x : list Z) : list Z :=
  zip_with Z.lxor x (keystream (block_count (length x)) key icb).

Definition hash_key (key : list Z) : Z :=
  int_of_bytes (Aes.cipher key (repeat 0 16)).

(** The pre-counter block [J0]. *)
Definition j0 (key iv : list Z) : list Z :=
  if (length iv =? 12)%nat then iv ++ [0; 0; 0; 1]
  else bytes_of_int 16
         (ghash (hash_key key)
                (pad iv ++ repeat 0 8
                   ++ bytes_of_int 8 (8 * Z.of_nat (length iv)))).

Definition tag (key iv c : list Z) : list Z :=
  let s := ghash (hash_key key)
                 (pad c ++ bytes_of_int 8 0
                    ++ bytes_of_int 8 (8 * Z.of_nat (length c))) in
  gctr key (j0 key iv) (bytes_of_int 16 s).

(** [GCM-AE_K(IV, P, A = empty)], the tag appended to the ciphertext. *)
Definition encrypt (key iv p : list Z) : list Z :=
  let c := gctr key (inc32 (j0 key iv)) p in
  c ++ tag key iv c.

Definition bytes_eqb (a b : list Z) : bool :=
  bool_decide (a = b).

(** [GCM-AD_K(IV, C, A = empty, T)]: [None] is the standard's FAIL. *)
Definition decrypt (key iv ct : list Z) : option (list Z) :=
  if (length ct <? 16)%nat then None
  else
    let c := take (length ct - 16) ct in
    let t := drop (length ct - 16) ct in
    if bytes_eqb (tag key iv c) t
    then Some (gctr key (inc32 (j0 key iv)) c)
    else None.

End Gcm.

(** ** [crypto.subtle] restricted to what the sources call

    An empty [iv] is refused, as the implementations do.  The cipher also
    refuses data beyond 2^36 - 32 bytes; no buffer the scripts can hold is
    that long ([readFileSync] stops at 2 GiB), so that limit is left out. *)

Module Subtle.

(** A [CryptoKey] for ["AES-GCM"]: its raw bytes. *)
Record CryptoKey : Type := { raw : list Z }.

(** [importKey("raw", rawKey, { name: "AES-GCM" }, ...)]: keys of 128, 192
    and 256 bits are accepted, any other length is a [DataError]. *)
Definition importKey (rawKey : list Z) : Js.exn + CryptoKey :=
  let n := length rawKey in
  if ((n =? 16) || (n =? 24) || (n =? 32))%nat then inr {| raw := rawKey |}
  else inl Js.DataError.

Definition exportKey (key : CryptoKey) : list Z := raw key.

(** [encrypt({ name: "AES-GCM", iv }, key, data)], tag length 128. *)
Definition encrypt (iv : list Z) (key : CryptoKey) (data : list Z)
  : Js.exn + list Z :=
  if (length iv =? 0)%nat then inl Js.OperationError
  else inr (Gcm.encrypt (raw key) iv data).

(** [decrypt({ name: "AES-GCM", iv }, key, data)]: an [OperationError]
    when the data is shorter than a tag or the tag does not verify. *)
Definition decrypt (iv : list Z) (key : CryptoKey) (data : list Z)
  : Js.exn + list Z :=
  if (length iv =? 0)%nat then inl Js.OperationError
  else match Gcm.decrypt (raw key) iv data with
       | Some plaintext => inr plaintext
       | None => inl Js.OperationError
       end.

End Subtle.

(** ** Effects of the two scripts: a log of what they did, and exceptions *)

Module Eff.

Inductive event : Type :=
| Fetch (url : string)
| ConsoleLog (text : string) (value : list Z)
| ConsoleError (text : string) (e : Js.exn)
| ImportKey (rawKey : list Z)
| Encrypt (iv key data : list Z)
| Decrypt (iv key data : list Z).

Definition M (A : Type) : Type := (list event * (Js.exn + A))%type.

Definition ret {A} (a : A) : M A := ([], inr a).

Definition throw {A} (e : Js.exn) : M A := ([], inl e).

Definition emit (ev : event) : M unit := ([ev], inr tt).

Definition lift {A} (r : Js.exn + A) : M A := ([], r).

Definition bind {A B} (m : M A) (k : A -> M B) : M B :=
  match m with
  | (log, inl e) => (log, inl e)
  | (log, inr a) => let (log', r) := k a in (log ++ log', r)
  end.

(** The arguments of the [decrypt] calls of a log: nonce, key, data. *)
Fixpoint decrypt_calls (log : list event)
  : list (list Z * list Z * list Z) :=
  match log with
  | [] => []
  | Decrypt iv key data :: rest => (iv, key, data) :: decrypt_calls rest
  | _ :: rest => decrypt_calls rest
  end.

End Eff.

Notation "'let!' x := m 'in' k" := (Eff.bind m (fun x => k))
  (at level 10, x name, m at level 100, k at level 200).
Notation "'do' m 'then' k" := (Eff.bind m (fun _ => k))
  (at level 10, m at level 100, k at level 200).

(** The record of [encryptionKey.json], which the key route serves back. *)
Module KeyMaterial.

Record t : Type := { key : list Z; iv : list Z }.

End KeyMaterial.

(** ** The producer: [async function encryptVideo(filePath)] *)

Module Producer.

(** The random source, read front to back. *)
Record rng : Type := { stream : nat -> Z; pos : nat }.

(** [webcrypto.getRandomValues(array)] fills the array it is given. *)
Definition getRandomValues (array : list Z) (g : rng) : list Z * rng :=
  (map (fun i => stream g (pos g + i)%nat mod 256) (seq 0 (length array)),
   {| stream := stream g; pos := (pos g + length array)%nat |}).

(** [generateKey({ name: 'AES-GCM', length }, ...)] *)
Definition generateKey (bits : nat) (g : rng) : Subtle.CryptoKey * rng :=
  let (bytes, g') := getRandomValues (Js.Uint8Array_new (bits / 8)) g in
  ({| Subtle.raw := bytes |}, g').

(** The [n] bytes read from the source at offset [k] of its position. *)
Definition drawn (g : rng) (k n : nat) : list Z :=
  map (fun i => stream g (pos g + k + i)%nat mod 256) (seq 0 n).

(** The two files the script writes. *)
Record files : Type := {
  encryptedVideo_bin : list Z;
  encryptionKey_json : KeyMaterial.t
}.

Definition encryptVideo (fileBuffer : list Z) (g : rng) : Eff.M files :=
  let arrayBuffer := fileBuffer in
  let (key, g) := generateKey 256 g in
  let rawKey := Subtle.exportKey key in
  let (iv, g) := getRandomValues (Js.Uint8Array_new 12) g in
  do Eff.emit (Eff.Encrypt iv (Subtle.raw key) arrayBuffer) then
  let! encryptedArrayBuffer :=
    Eff.lift (Subtle.encrypt iv key arrayBuffer) in
  let ivAndCiphertext :=
    Js.Uint8Array_new (length iv + length encryptedArrayBuffer) in
  let! ivAndCiphertext := Eff.lift (Js.set ivAndCiphertext iv 0) in
  let! ivAndCiphertext :=
    Eff.lift (Js.set ivAndCiphertext encryptedArrayBuffer (length iv)) in
  Eff.ret {| encryptedVideo_bin := ivAndCiphertext;
             encryptionKey_json := {| KeyMaterial.key := rawKey;
                                      KeyMaterial.iv := iv |} |}.

End Producer.

(** ** The consumer: [async function loadAndDisplay()] *)

Module Consumer.

Definition CID : string :=
  "bafybeihxrk3wabligbejuvuhgyvxn7n2z6qjjmu72zv7ode4ldw3vwhnla".

Definition VIDEO_URL : string := String.append "/api/ipfsProxy?cid=" CID.

(** The address of the key route, as the script spells it. *)
Definition key_url : string := "api/getEncryptionKey.js".

(** What [fetch(url)] resolves to, with the body as the reader used on it
    ([blob()] or [json()]) delivers it. *)
Inductive fetched (A : Type) : Type :=
| Rejected (e : Js.exn)
| Responded (status : Z) (body : Js.exn + A).
Arguments Rejected {A} e.
Arguments Responded {A} status body.

Record network : Type := {
  get_blob : string -> fetched (list Z);
  get_json : string -> fetched KeyMaterial.t
}.

Definition ok (status : Z) : bool := (200 <=? status) && (status <=? 299).

Record Blob : Type := { parts : list Z; type : string }.

(** The part of the document the function writes. *)
Record page : Type := {
  message_textContent : string;
  videoPlayer_src : option Blob;
  videoPlayer_display : string;
  videoContainer_display : string
}.

Definition fetch_ok {A} (url : string) (r : fetched A) (what : string)
  : Eff.M A :=
  do Eff.emit (Eff.Fetch url) then
  match r with
  | Rejected e => Eff.throw e
  | Responded status body =>
      if negb (ok status) then
        Eff.throw (Js.Error (String.append what (Js.to_string status)))
      else Eff.lift body
  end.

(** [`${VIDEO_URL}?t=${Date.now()}`] *)
Definition video_url (now : Z) : string :=
  String.append VIDEO_URL (String.append "?t=" (Js.to_string now)).

(** The body of the [try] block up to the decrypted bytes. *)
Definition decrypted (net : network) (now : Z) : Eff.M (list Z) :=
  let url := video_url now in
  let! encryptedBytes :=
    fetch_ok url (get_blob net url) "Failed to fetch encrypted video: " in
  let ivFromFile := Js.slice encryptedBytes 0 12 in
  let ciphertext := Js.slice_from encryptedBytes 12 in
  let! keyData :=
    fetch_ok key_url (get_json net key_url)
             "Failed to fetch encryption key: " in
  let rawKey := Js.Uint8Array_from (KeyMaterial.key keyData) in
  let ivFromKey := Js.Uint8Array_from (KeyMaterial.iv keyData) in
  do Eff.emit (Eff.ConsoleLog "IV extracted from file:" ivFromFile) then
  do Eff.emit (Eff.ConsoleLog "IV from encryptionKey.json:" ivFromKey) then
  do Eff.emit (Eff.ImportKey rawKey) then
  let! cryptoKey := Eff.lift (Subtle.importKey rawKey) in
  do Eff.emit (Eff.Decrypt ivFromKey (Subtle.raw cryptoKey) ciphertext) then
  Eff.lift (Subtle.decrypt ivFromKey cryptoKey ciphertext).

(** Steps 7 and 8: the document once the decrypted bytes are shown. *)
Definition rendered (doc : page) (decryptedArrayBuffer : list Z) : page :=
  let decryptedBlob :=
    {| parts := decryptedArrayBuffer; type := "video/mp4" |} in
  {| message_textContent :=
       String.append (message_textContent doc) " | Video loaded!";
     videoPlayer_src := Some decryptedBlob;
     videoPlayer_display := "block";
     videoContainer_display := "block" |}.

(** The [catch] block: only the message changes. *)
Definition failed (doc : page) : page :=
  {| message_textContent := "❌ Decryption failed.";
     videoPlayer_src := videoPlayer_src doc;
     videoPlayer_display := videoPlayer_display doc;
     videoContainer_display := videoContainer_display doc |}.

Definition loadAndDisplay (net : network) (now : Z) (doc : page)
  : page * list Eff.event :=
  match decrypted net now with
  | (log, inr decryptedArrayBuffer) =>
      (rendered doc decryptedArrayBuffer, log)
  | (log, inl error) =>
      (failed doc, log ++ [Eff.ConsoleError "Decryption failed:" error])
  end.

(** A network on which the proxy serves [envelope] and the key route
    serves [keyData]. *)
Definition serving (envelope : list Z) (keyData : KeyMaterial.t)
  : network :=
  {| get_blob := fun _ => Responded 200 (inr envelope);
     get_json := fun _ => Responded 200 (inr keyData) |}.

(** The document when the function is called. *)
Definition initial : page :=
  {| message_textContent := "Yes, you have the NFT";
     videoPlayer_src := None;
     videoPlayer_display := "none";
     videoContainer_display := "none" |}.

End Consumer.

(** ** The proxy over a sequence of requests *)

Module ProxyLog.
Import IpfsProxy.

(** The results of requests handled one after the other by one process. *)
Fixpoint serve (calls : list call) (cache : gmap string CacheEntry)
  : list outcome :=
  match calls with
  | [] => []
  | c :: rest => step cache c :: serve rest (out_cache (step cache c))
  end.

(** Every upstream request issued while serving [calls], in order. *)
Definition upstream_log (calls : list call)
    (cache : gmap string CacheEntry) : list string :=
  concat (map out_upstream (serve calls cache)).

(** The call [c] asked for [k], found the gateway answering with a success
    status, and [e] is what the handler stores in that case. *)
Definition written_by (c : call) (k : string) (e : CacheEntry) : Prop :=
  call_req c = get k
  /\ k <> ""
  /\ timestamp e = call_now c
  /\ exists st,
       call_fetch c (ipfsUrl k)
       = FetchResponse st (contentType e) (BodyBytes (data e))
       /\ ok st = true.

End ProxyLog.

(** ** The producer with its files: [readFileSync] and [writeFileSync] *)

Module ProducerIO.

(** What a file holds: bytes, or the JSON text of a key record. *)
Inductive content : Type :=
| Binary (bytes : list Z)
| KeyJson (keyData : KeyMaterial.t).

(** The file system as the script meets it: what reading a path gives, and
    the error, if any, that writing a path raises. *)
Record disk : Type := {
  readFileSync : string -> Js.exn + list Z;
  write_error : string -> option Js.exn
}.

(** What a run leaves: the files written, in order, the lines printed by
    [console.log], and the error the promise is rejected with, if any. *)
Record run : Type := {
  written : list (string * content);
  printed : list string;
  rejected : option Js.exn
}.

(** [encryptVideo(filePath)] from the read to the two confirmation lines. *)
Definition encryptVideo (d : disk) (filePath : string) (g : Producer.rng)
  : run :=
  match readFileSync d filePath with
  | inl e => {| written := []; printed := []; rejected := Some e |}
  | inr fileBuffer =>
      match snd (Producer.encryptVideo fileBuffer g) with
      | inl e => {| written := []; printed := []; rejected := Some e |}
      | inr out =>
          match write_error d "encryptedVideo.bin" with
          | Some e => {| written := []; printed := []; rejected := Some e |}
          | None =>
              let bin := ("encryptedVideo.bin",
                          Binary (Producer.encryptedVideo_bin out)) in
              match write_error d "encryptionKey.json" with
              | Some e =>
                  {| written := [bin]; printed := []; rejected := Some e |}
              | None =>
                  {| written :=
                       [bin; ("encryptionKey.json",
                              KeyJson (Producer.encryptionKey_json out))];
                     printed :=
                       ["✅ Video encrypted successfully!";
                        String.append "Output files: 'encryptedVideo.bin' "
                                      "and 'encryptionKey.json'"];
                     rejected := None |}
              end
          end
      end
  end.

End ProducerIO.

(** ** The key route: [api/getEncryptionKey]

    [JSON.parse] is a parameter: a function from text to a parsed value or
    the [SyntaxError] it throws. *)

Module KeyRoute.

(** [process.env]: a variable is [undefined] or a string. *)
Record environment : Type := {
  ENCRYPTION_KEY : option string;
  ENCRYPTION_IV : option string
}.

Inductive reply (J : Type) : Type :=
| NotConfigured (statusCode : Z) (error : string)
| KeyData (statusCode : Z) (key iv : J)
| Thrown (e : Js.exn).
Arguments NotConfigured {J} statusCode error.
Arguments KeyData {J} statusCode key iv.
Arguments Thrown {J} e.

(** [!v] for a variable of the environment. *)
Definition missing (v : option string) : bool :=
  match v with
  | None => true
  | Some s => negb (Js.truthy s)
  end.

(** The reply, and the texts handed to [JSON.parse], in order. *)
Definition handler {J : Type} (JSON_parse : string -> Js.exn + J)
    (env : environment) : reply J * list string :=
  if missing (ENCRYPTION_KEY env) || missing (ENCRYPTION_IV env) then
    (NotConfigured 500 "Encryption key not configured.", [])
  else
    match ENCRYPTION_KEY env, ENCRYPTION_IV env with
    | Some encryptionKey, Some encryptionIV =>
        match JSON_parse encryptionKey with
        | inl e => (Thrown e, [encryptionKey])
        | inr key =>
            match JSON_parse encryptionIV with
            | inl e => (Thrown e, [encryptionKey; encryptionIV])
            | inr iv => (KeyData 200 key iv, [encryptionKey; encryptionIV])
            end
        end
    | _, _ => (NotConfigured 500 "Encryption key not configured.", [])
    end.

End KeyRoute.

(** ** The page script: wallet, token check and the click handler *)

Module Frontend.

(** One entry of [tokenAccounts.value], reduced to the two fields read:
    [account.data.parsed.info.mint] and [...tokenAmount.uiAmount], a number
    or [null]. *)
Record token_account : Type := {
  mint : string;
  uiAmount : option Q
}.

(** [nftMintAddress.toBase58()]: the text the key was built from. *)
Definition nftMintAddress : string :=
  "Fq6bMazX8ZaBNxDhHpeQtBzUMG11mhw4A7zj3MvnUqvb".

(** [uiAmount > 0], false for [null]. *)
Definition gt_zero (x : option Q) : bool :=
  match x with
  | Some q => if Qlt_le_dec 0 q then true else false
  | None => false
  end.

(** The callback of [tokenAccounts.value.some(...)]. *)
Definition holds_nft (account : token_account) : bool :=
  String.eqb (mint account) nftMintAddress && gt_zero (uiAmount account).

Inductive event : Type :=
| Alert (text : string)
| Connecting
| ConsoleLog (text value : string)
| ConsoleError (text : string) (e : Js.exn)
| Rpc (owner : string)
| Loading (log : list Eff.event).

(** What the [try] block of [checkIfUserHasNFT] meets: the accounts of an
    owner, or whatever key construction or the node throws. *)
Definition rpc : Type := string -> Js.exn + list token_account.

Definition checkIfUserHasNFT (node : rpc) (walletAddress : string)
  : bool * list event :=
  match node walletAddress with
  | inr accounts => (existsb holds_nft accounts, [Rpc walletAddress])
  | inl error =>
      (false, [Rpc walletAddress; ConsoleError "Error checking NFT:" error])
  end.

(** [window.solana]: absent, or a provider whose [connect()] resolves to a
    public key (as text) or rejects. *)
Record provider : Type := {
  isPhantom : bool;
  connect : Js.exn + string
}.

Record world : Type := {
  solana : option provider;
  node : rpc;
  net : Consumer.network;
  now : Z
}.

(** The document with the button. *)
Record ui : Type := {
  doc : Consumer.page;
  button_disabled : bool
}.

Definition set_message (text : string) (d : Consumer.page) : Consumer.page :=
  {| Consumer.message_textContent := text;
     Consumer.videoPlayer_src := Consumer.videoPlayer_src d;
     Consumer.videoPlayer_display := Consumer.videoPlayer_display d;
     Consumer.videoContainer_display := Consumer.videoContainer_display d |}.

Definition set_disabled (b : bool) (u : ui) : ui :=
  {| doc := doc u; button_disabled := b |}.

Definition with_doc (d : Consumer.page) (u : ui) : ui :=
  {| doc := d; button_disabled := button_disabled u |}.

(** [checkNFTAndDisplayMessage]: [loadAndDisplay()] is started without
    [await]; the document returned is the one reached when it settles. *)
Definition checkNFTAndDisplayMessage (w : world) (walletAddress : string)
    (d : Consumer.page) : Consumer.page * list event :=
  let (hasNFT, log) := checkIfUserHasNFT (node w) walletAddress in
  if hasNFT then
    let (d', loaded) :=
      Consumer.loadAndDisplay (net w) (now w)
        (set_message "Yes, you have the NFT" d) in
    (d', log ++ [Loading loaded])
  else (set_message "No, you do not have the NFT" d, log).

(** The listener of [connectWalletButton], for one click followed to the
    end with nothing else happening on the page. *)
Definition click (w : world) (u : ui) : ui * list event :=
  let u := set_disabled true u in
  match solana w with
  | None =>
      (set_disabled false u,
       [Alert "Phantom wallet not detected, please install"])
  | Some p =>
      if negb (isPhantom p) then
        (set_disabled false u,
         [Alert "Phantom wallet not detected, please install"])
      else
        match connect p with
        | inr walletAddress =>
            let d :=
              set_message (String.append "Connected " walletAddress) (doc u) in
            let (d', log) := checkNFTAndDisplayMessage w walletAddress d in
            (set_disabled false (with_doc d' u),
             [Connecting; ConsoleLog "Wallet Address:" walletAddress] ++ log)
        | inl error =>
            (set_disabled false
               (with_doc (set_message "Wallet connection failed" (doc u)) u),
             [Connecting; ConsoleError "Wallet connection failed" error])
        end
  end.

(** The listener of the wallet's ["disconnect"] event. *)
Definition disconnected (u : ui) : ui :=
  with_doc (set_message "Wallet disconnected, please reconnect" (doc u)) u.

End Frontend.

(** ** Failing fetches of the consumer *)

Module ConsumerCases.

(** The three ways a [fetch] followed by the read of the body fails, with
    the error the [catch] block receives; [what] is the text the script puts
    before the status. *)
Definition fetch_failure {A : Type} (r : Consumer.fetched A) (what : string)
    (e : Js.exn) : Prop :=
  r = Consumer.Rejected e
  \/ (exists st body, r = Consumer.Responded st body /\ Consumer.ok st = false
                      /\ e = Js.Error (String.append what (Js.to_string st)))
  \/ (exists st, r = Consumer.Responded st (inl e) /\ Consumer.ok st = true).

End ConsumerCases.

(** ** The consumer in front of the proxy

    The route reads [req.query.cid] off the address it is called with.  For
    an address of the form [/api/ipfsProxy?cid=...] whose query has no [&],
    [%] or [+], as is every address the consumer builds, that is the whole
    text after [cid=]. *)

Module Pipeline.

Definition route : string := "/api/ipfsProxy?cid=".

(** What the route reads as [cid] when the consumer loads at [now]: the
    time stamp that [loadAndDisplay] appends is part of it. *)
Definition requested_cid (now : Z) : string :=
  String.append Consumer.CID (String.append "?t=" (Js.to_string now)).

Definition query_of (url : string) : IpfsProxy.request :=
  {| IpfsProxy.query_cid :=
       if String.prefix route url
       then Some (String.substring (String.length route)
                    (String.length url - String.length route) url)
       else None |}.

(** The response of the proxy as [fetch] and [blob()] deliver it;
    [json_text] is the text of an error body. *)
Definition as_fetched (json_text : string -> list Z)
    (res : IpfsProxy.response) : Consumer.fetched (list Z) :=
  Consumer.Responded (IpfsProxy.statusCode res)
    (inr match IpfsProxy.body res with
         | IpfsProxy.Sent bytes => bytes
         | IpfsProxy.JsonError error => json_text error
         | IpfsProxy.NoBody => []
         end).

(** A network whose proxy route is the handler over [cache], in front of
    [gateway], and whose key route serves [keys]. *)
Definition behind_proxy (json_text : string -> list Z)
    (gateway : string -> IpfsProxy.fetch_result) (server_now : Z)
    (cache : gmap string IpfsProxy.CacheEntry)
    (keys : Consumer.fetched KeyMaterial.t) : Consumer.network :=
  {| Consumer.get_blob := fun url =>
       as_fetched json_text
         (IpfsProxy.out_res
            (IpfsProxy.handler gateway server_now (query_of url) cache));
     Consumer.get_json := fun _ => keys |}.

End Pipeline.

(** * Properties *)

(** ** JavaScript helpers *)

Module JsFacts.
Import Js.

Lemma truthy_nonempty (s : string) : truthy s = true <-> s <> "".
Proof.
  unfold truthy. rewrite negb_true_iff. split.
  - intros H ->. now rewrite String.eqb_refl in H.
  - intros H. now apply String.eqb_neq.
Qed.

Lemma truthy_empty : truthy "" = false.
Proof. reflexivity. Qed.

Lemma or_else_null (d : string) : or_else None d = d.
Proof. reflexivity. Qed.

End JsFacts.

(** ** The retrieval proxy *)

Module IpfsProxyFacts.
Import IpfsProxy.

Lemma valid_entry_fresh cache cid now e :
  cache !! cid = Some e -> now - timestamp e < CACHE_TTL ->
  valid_entry cache cid now = Some e.
Proof.
  intros Hl Hlt. unfold valid_entry. rewrite Hl.
  apply Z.ltb_lt in Hlt. now rewrite Hlt.
Qed.

Lemma valid_entry_Some cache cid now e :
  valid_entry cache cid now = Some e ->
  cache !! cid = Some e /\ now - timestamp e < CACHE_TTL.
Proof.
  unfold valid_entry. destruct (cache !! cid) as [e'|]; [|discriminate].
  destruct (Z.ltb_spec (now - timestamp e') CACHE_TTL); [|discriminate].
  intros [= <-]. auto.
Qed.

(** The ways a call can go, one equation each. *)
Lemma handler_hit fetch now cid cache e :
  cid <> "" -> valid_entry cache cid now = Some e ->
  handler fetch now (get cid) cache =
    {| out_res := success (data e) (contentType e);
       out_cache := cache; out_upstream := [] |}.
Proof.
  intros Hc Hv. apply JsFacts.truthy_nonempty in Hc.
  unfold handler, get. cbn [query_cid]. now rewrite Hc, Hv.
Qed.

Lemma handler_rejected fetch now cid cache message :
  cid <> "" -> valid_entry cache cid now = None ->
  fetch (ipfsUrl cid) = FetchThrows message ->
  handler fetch now (get cid) cache =
    {| out_res := failure 500 message;
       out_cache := cache; out_upstream := [ipfsUrl cid] |}.
Proof.
  intros Hc Hv Hf. apply JsFacts.truthy_nonempty in Hc.
  unfold handler, get. cbn [query_cid]. now rewrite Hc, Hv, Hf.
Qed.

Lemma handler_not_ok fetch now cid cache st ctype buffer :
  cid <> "" -> valid_entry cache cid now = None ->
  fetch (ipfsUrl cid) = FetchResponse st ctype buffer -> ok st = false ->
  handler fetch now (get cid) cache =
    {| out_res := failure st "Failed to fetch IPFS content";
       out_cache := cache; out_upstream := [ipfsUrl cid] |}.
Proof.
  intros Hc Hv Hf Hok. apply JsFacts.truthy_nonempty in Hc.
  unfold handler, get. cbn [query_cid]. now rewrite Hc, Hv, Hf, Hok.
Qed.

Lemma handler_body_rejected fetch now cid cache st ctype message :
  cid <> "" -> valid_entry cache cid now = None ->
  fetch (ipfsUrl cid) = FetchResponse st ctype (BodyThrows message) ->
  ok st = true ->
  handler fetch now (get cid) cache =
    {| out_res := failure 500 message;
       out_cache := cache; out_upstream := [ipfsUrl cid] |}.
Proof.
  intros Hc Hv Hf Hok. apply JsFacts.truthy_nonempty in Hc.
  unfold handler, get. cbn [query_cid]. now rewrite Hc, Hv, Hf, Hok.
Qed.

Lemma handler_fetched fetch now cid cache st ctype bytes :
  cid <> "" -> valid_entry cache cid now = None ->
  fetch (ipfsUrl cid) = FetchResponse st ctype (BodyBytes bytes) ->
  ok st = true ->
  handler fetch now (get cid) cache =
    {| out_res := success bytes ctype;
       out_cache :=
         <[cid := {| data := bytes; contentType := ctype;
                     timestamp := now |}]> cache;
       out_upstream := [ipfsUrl cid] |}.
Proof.
  intros Hc Hv Hf Hok. apply JsFacts.truthy_nonempty in Hc.
  unfold handler, get. cbn [query_cid]. now rewrite Hc, Hv, Hf, Hok.
Qed.

Lemma handler_missing fetch now req cache :
  query_cid req = None \/ query_cid req = Some "" ->
  handler fetch now req cache =
    {| out_res := failure 400 "Missing CID";
       out_cache := cache; out_upstream := [] |}.
Proof. intros [H|H]; unfold handler; now rewrite H. Qed.

Lemma handler_run fetch now req cache :
  run fetch now cache req (handler fetch now req cache).
Proof.
  destruct req as [[cid|]].
  2: { rewrite handler_missing by auto. constructor; auto. }
  destruct (String.eqb_spec cid "") as [->|Hc].
  { rewrite handler_missing by auto. constructor; auto. }
  change {| query_cid := Some cid |} with (get cid).
  destruct (valid_entry cache cid now) as [e|] eqn:Hv.
  { rewrite (handler_hit _ _ _ _ e) by assumption. now constructor. }
  destruct (fetch (ipfsUrl cid)) as [m|st ctype buffer] eqn:Hf.
  { rewrite (handler_rejected _ _ _ _ m) by assumption. now constructor. }
  destruct (ok st) eqn:Hok.
  2: { rewrite (handler_not_ok _ _ _ _ st ctype buffer) by assumption.
       now constructor. }
  destruct buffer as [bytes|m].
  - rewrite (handler_fetched _ _ _ _ st ctype bytes) by assumption.
    now constructor.
  - rewrite (handler_body_rejected _ _ _ _ st ctype m) by assumption.
    now constructor.
Qed.

Lemma upstream_at_most_once fetch now req cache :
  (length (out_upstream (handler fetch now req cache)) <= 1)%nat.
Proof. destruct (handler_run fetch now req cache); cbn; lia. Qed.

Lemma final_cache_app before after cache :
  final_cache (before ++ after) cache
  = final_cache after (final_cache before cache).
Proof. unfold final_cache. apply fold_left_app. Qed.

Lemma step_keeps_keys cache c :
  dom cache ⊆ dom (out_cache (step cache c)).
Proof.
  unfold step. destruct (handler_run (call_fetch c) (call_now c)
                           (call_req c) cache); cbn; try done.
  rewrite dom_insert_L. set_solver.
Qed.



(** The same with the entry written by the first call itself: a first call
    that fetches, then a second one less than [CACHE_TTL] later. *)
Lemma fetch_then_hit fetch1 fetch2 now1 now2 cid cache st ctype bytes :
  cid <> "" -> valid_entry cache cid now1 = None ->
  fetch1 (ipfsUrl cid) = FetchResponse st ctype (BodyBytes bytes) ->
  ok st = true ->
  now2 - now1 < CACHE_TTL ->
  let first := handler fetch1 now1 (get cid) cache in
  let second := handler fetch2 now2 (get cid) (out_cache first) in
  out_upstream first ++ out_upstream second = [ipfsUrl cid]
  /\ out_res second = success bytes ctype.
Proof.
  intros Hc Hv Hf Hok Hlt first second. subst second first.
  rewrite (handler_fetched _ _ _ _ st ctype bytes Hc Hv Hf Hok).
  cbn [out_cache out_upstream].
  rewrite (handler_hit fetch2 now2 cid _
             {| data := bytes; contentType := ctype; timestamp := now1 |} Hc).
  - split; reflexivity.
  - apply valid_entry_fresh; [apply lookup_insert_eq|exact Hlt].
Qed.

(** A first call that misses and fetches writes the entry with its own
    clock reading. *)
Lemma first_call_writes_entry fetch now cid cache st ctype bytes :
  cid <> "" -> valid_entry cache cid now = None ->
  fetch (ipfsUrl cid) = FetchResponse st ctype (BodyBytes bytes) ->
  ok st = true ->
  out_cache (handler fetch now (get cid) cache) !! cid
  = Some {| data := bytes; contentType := ctype; timestamp := now |}.
Proof.
  intros. erewrite handler_fetched by eassumption. cbn.
  apply lookup_insert_eq.
Qed.

(** C5. When the gateway is asked and answers with a status outside
    200-299, the caller gets that status with the body
    [{error: "Failed to fetch IPFS content"}], and the cache object is
    the one the call started with. *)
Theorem upstream_failure_is_propagated
    (fetch : string -> fetch_result) (now : Z) (cid : string)
    (cache : gmap string CacheEntry) (st : Z) (ctype : option string)
    (buffer : body_read) :
  cid <> "" ->
  valid_entry cache cid now = None ->
  fetch (ipfsUrl cid) = FetchResponse st ctype buffer ->
  ok st = false ->
  let o := handler fetch now (get cid) cache in
  statusCode (out_res o) = st
  /\ body (out_res o) = JsonError "Failed to fetch IPFS content"
  /\ out_cache o = cache
  /\ out_upstream o = [ipfsUrl cid].
Proof.
  intros Hc Hv Hf Hok o. subst o.
  rewrite (handler_not_ok _ _ _ _ st ctype buffer) by assumption.
  cbn. auto.
Qed.

Lemma upstream_failure_is_propagated_witness :
  let gone := fun _ : string => FetchResponse 404 None (BodyBytes []) in
  let o := handler gone 5 (get "QmA") ∅ in
  statusCode (out_res o) = 404
  /\ body (out_res o) = JsonError "Failed to fetch IPFS content"
  /\ out_cache o = ∅
  /\ out_upstream o = [ipfsUrl "QmA"].
Proof.
  intros gone.
  apply (upstream_failure_is_propagated gone 5 "QmA" ∅ 404 None
           (BodyBytes [])).
  - discriminate.
  - reflexivity.
  - reflexivity.
  - reflexivity.
Defined.

(** C6. A request without [cid], or with an empty one, is answered 400
    with [{error: "Missing CID"}]; nothing is asked upstream and the cache
    is untouched. *)
Theorem missing_cid_is_rejected
    (fetch : string -> fetch_result) (now : Z) (req : request)
    (cache : gmap string CacheEntry) :
  query_cid req = None \/ query_cid req = Some "" ->
  let o := handler fetch now req cache in
  statusCode (out_res o) = 400
  /\ body (out_res o) = JsonError "Missing CID"
  /\ out_upstream o = []
  /\ out_cache o = cache.
Proof.
  intros H o. subst o. rewrite handler_missing by assumption. cbn. auto.
Qed.

Lemma missing_cid_is_rejected_witness :
  let o := handler (fun _ => FetchThrows "unused") 5
             {| query_cid := Some "" |} ∅ in
  statusCode (out_res o) = 400
  /\ body (out_res o) = JsonError "Missing CID"
  /\ out_upstream o = []
  /\ out_cache o = ∅.
Proof.
  apply (missing_cid_is_rejected (fun _ => FetchThrows "unused") 5
           {| query_cid := Some "" |} ∅).
  right. reflexivity.
Defined.

(** C7 as stated fails: none of the three error responses carries the
    header.  The request without [cid], a 404 from the gateway, and a
    gateway that cannot be reached. *)
Lemma error_responses_lack_cors_header :
  cors_open (out_res (handler (fun _ => FetchThrows "fetch failed") 0
                        {| query_cid := None |} ∅)) = false
  /\ cors_open (out_res (handler
                          (fun _ => FetchResponse 404 None (BodyBytes []))
                          0 (get "QmA") ∅)) = false
  /\ cors_open (out_res (handler (fun _ => FetchThrows "fetch failed") 0
                          (get "QmA") ∅)) = false.
Proof. repeat split. Qed.

(** C7, as the code has it. The open cross-origin header is on a response
    exactly when its status is 200, that is on the two success paths; the
    400, the propagated upstream status and the 500 responses carry no
    header set by the handler. *)
Theorem cors_header_exactly_on_200
    (fetch : string -> fetch_result) (now : Z) (req : request)
    (cache : gmap string CacheEntry) :
  let res := out_res (handler fetch now req cache) in
  (cors_open res = true <-> statusCode res = 200)
  /\ (statusCode res = 200 \/ headers res = []).
Proof.
  cbn zeta.
  destruct (handler_run fetch now req cache) as
    [req H|cid e Hc Hv|cid m Hc Hv|cid st Hc Hv Hok|cid bytes ctype Hc Hv];
    cbn [out_res failure success statusCode headers]; split; auto.
  - split; [inversion 1|discriminate].
  - split; reflexivity.
  - split; [inversion 1|discriminate].
  - split; [inversion 1|]. intros ->. discriminate.
  - split; reflexivity.
Qed.

(** The only change a call makes to the cache object is the assignment
    [cache[cid] = {...}] of a successful fetch. *)
Lemma step_writes_or_keeps cache c :
  out_cache (step cache c) = cache
  \/ exists cid bytes ctype,
       call_req c = get cid
       /\ out_cache (step cache c)
          = <[cid := {| data := bytes; contentType := ctype;
                        timestamp := call_now c |}]> cache
       /\ out_res (step cache c) = success bytes ctype
       /\ out_upstream (step cache c) = [ipfsUrl cid].
Proof.
  unfold step. destruct (handler_run (call_fetch c) (call_now c)
                           (call_req c) cache); cbn; auto.
  right. eauto 10.
Qed.

(** C9. No call removes a key from the cache object: whatever requests
    came before and whatever requests follow, every key present after
    the first ones is still present after the later ones; and a single
    call either leaves the object as it is or assigns one key, so that
    the entry read back under that key is the one written last. *)
Theorem cache_keys_persist
    (before after : list call) (cache : gmap string CacheEntry) :
  dom (final_cache before cache)
  ⊆ dom (final_cache (before ++ after) cache)
  /\ forall c : call,
       let m := final_cache before cache in
       let m' := out_cache (step m c) in
       m' = m
       \/ exists cid e, m' = <[cid := e]> m /\ m' !! cid = Some e
                       /\ timestamp e = call_now c.
Proof.
  split.
  - rewrite final_cache_app. generalize (final_cache before cache).
    induction after as [|c rest IH]; intros m; [done|].
    cbn. etrans; [apply (step_keeps_keys m c)|apply IH].
  - intros c m m'. subst m'.
    destruct (step_writes_or_keeps m c) as [H|(cid & b & t & _ & H & _)];
      [now left|right].
    eexists cid, _. rewrite H. split; [reflexivity|].
    split; [apply lookup_insert_eq|reflexivity].
Qed.

(** The cache object changes only on a call that fetched and answered
    200. *)
Lemma cache_changes_only_on_fetch fetch now req cache :
  out_cache (handler fetch now req cache) <> cache ->
  statusCode (out_res (handler fetch now req cache)) = 200
  /\ out_upstream (handler fetch now req cache) <> [].
Proof.
  destruct (handler_run fetch now req cache); cbn; try congruence.
  intros _. split; [reflexivity|discriminate].
Qed.

(** C10. On both paths that answer 200, a content type that is [null]
    (in the entry that answers a hit, or in the headers of the upstream
    response just fetched) gives the header
    [Content-Type: application/octet-stream]. *)
Theorem null_content_type_defaults
    (fetch : string -> fetch_result) (now : Z) (cid : string)
    (cache : gmap string CacheEntry) :
  cid <> "" ->
  let res := out_res (handler fetch now (get cid) cache) in
  (forall e, valid_entry cache cid now = Some e -> contentType e = None ->
     statusCode res = 200
     /\ getHeader "Content-Type" (headers res)
        = Some "application/octet-stream")
  /\ (forall st bytes,
        valid_entry cache cid now = None ->
        fetch (ipfsUrl cid) = FetchResponse st None (BodyBytes bytes) ->
        ok st = true ->
        statusCode res = 200
        /\ getHeader "Content-Type" (headers res)
           = Some "application/octet-stream").
Proof.
  intros Hc res. subst res. split.
  - intros e Hv Hn. rewrite (handler_hit _ _ _ _ e) by assumption.
    cbn. now rewrite Hn.
  - intros st bytes Hv Hf Hok.
    rewrite (handler_fetched _ _ _ _ st None bytes) by assumption.
    now cbn.
Qed.


Lemma null_content_type_defaults_witness :
  let fetch := fun _ : string => FetchResponse 200 None (BodyBytes [7]) in
  let res := out_res (handler fetch 5 (get "QmA") ∅) in
  statusCode res = 200
  /\ getHeader "Content-Type" (headers res)
     = Some "application/octet-stream".
Proof.
  intros fetch.
  refine (proj2 (null_content_type_defaults fetch 5 "QmA" ∅ _)
            200 [7] _ _ _).
  - discriminate.
  - reflexivity.
  - reflexivity.
  - reflexivity.
Defined.

End IpfsProxyFacts.

(** ** The cipher: lengths and the round trip *)

Module CipherFacts.

(** Known answers: FIPS-197 appendix C.1 and C.3, and test cases 13 and
    14 of the GCM specification (a zero key and a zero nonce, with an
    empty and with a zero plaintext). *)
Example aes128_known_answer :
  Aes.cipher (map Z.of_nat (seq 0 16))
    [0x00; 0x11; 0x22; 0x33; 0x44; 0x55; 0x66; 0x77;
     0x88; 0x99; 0xaa; 0xbb; 0xcc; 0xdd; 0xee; 0xff]
  = [0x69; 0xc4; 0xe0; 0xd8; 0x6a; 0x7b; 0x04; 0x30;
     0xd8; 0xcd; 0xb7; 0x80; 0x70; 0xb4; 0xc5; 0x5a].
Proof. vm_compute. reflexivity. Qed.

Example aes256_known_answer :
  Aes.cipher (map Z.of_nat (seq 0 32))
    [0x00; 0x11; 0x22; 0x33; 0x44; 0x55; 0x66; 0x77;
     0x88; 0x99; 0xaa; 0xbb; 0xcc; 0xdd; 0xee; 0xff]
  = [0x8e; 0xa2; 0xb7; 0xca; 0x51; 0x67; 0x45; 0xbf;
     0xea; 0xfc; 0x49; 0x90; 0x4b; 0x49; 0x60; 0x89].
Proof. vm_compute. reflexivity. Qed.

Example gcm_empty_known_answer :
  Gcm.encrypt (repeat 0 32) (repeat 0 12) []
  = [0x53; 0x0f; 0x8a; 0xfb; 0xc7; 0x45; 0x36; 0xb9;
     0xa9; 0x63; 0xb4; 0xf1; 0xc4; 0xcb; 0x73; 0x8b].
Proof. vm_compute. reflexivity. Qed.

Example gcm_block_known_answer :
  Gcm.encrypt (repeat 0 32) (repeat 0 12) (repeat 0 16)
  = [0xce; 0xa7; 0x40; 0x3d; 0x4d; 0x60; 0x6b; 0x6e;
     0x07; 0x4e; 0xc5; 0xd3; 0xba; 0xf3; 0x9d; 0x18;
     0xd0; 0xd1; 0xc8; 0xa7; 0x99; 0x99; 0x6b; 0xf0;
     0x26; 0x5b; 0x98; 0xb5; 0xd4; 0x8a; 0xb9; 0x19].
Proof. vm_compute. reflexivity. Qed.

Lemma add_round_key_length s rk : length (Aes.add_round_key s rk) = 16%nat.
Proof. unfold Aes.add_round_key. now rewrite length_map, length_seq. Qed.

Lemma rounds_length rks s :
  length s = 16%nat -> length (Aes.rounds rks s) = 16%nat.
Proof.
  revert s. induction rks as [|rk rest IH]; intros s Hs; [exact Hs|].
  destruct rest as [|rk' rest'].
  - apply add_round_key_length.
  - change (Aes.rounds (rk :: rk' :: rest') s)
      with (Aes.rounds (rk' :: rest')
              (Aes.add_round_key
                 (Aes.mix_columns (Aes.shift_rows (Aes.sub_bytes s))) rk)).
    apply IH, add_round_key_length.
Qed.

Lemma key_expansion_nonempty key : Aes.key_expansion key <> [].
Proof.
  unfold Aes.key_expansion.
  replace (length key / 4 + 7)%nat with (S (length key / 4 + 6)) by lia.
  discriminate.
Qed.

(** A block of cipher output is sixteen bytes, whatever the inputs. *)
Lemma cipher_length key block : length (Aes.cipher key block) = 16%nat.
Proof.
  unfold Aes.cipher. pose proof (key_expansion_nonempty key) as Hne.
  destruct (Aes.key_expansion key) as [|rk0 rest]; [congruence|].
  apply rounds_length, add_round_key_length.
Qed.

Lemma keystream_length n key cb :
  length (Gcm.keystream n key cb) = (16 * n)%nat.
Proof.
  revert cb. induction n as [|n IH]; intros cb; [reflexivity|].
  cbn [Gcm.keystream]. rewrite length_app, cipher_length, IH. lia.
Qed.

Lemma block_count_covers len : (len <= 16 * Gcm.block_count len)%nat.
Proof.
  unfold Gcm.block_count.
  pose proof (Nat.div_mod_eq (len + 15) 16) as H.
  pose proof (Nat.mod_upper_bound (len + 15) 16) as Hm. lia.
Qed.

Lemma xor_twice (x ks : list Z) :
  (length x <= length ks)%nat ->
  zip_with Z.lxor (zip_with Z.lxor x ks) ks = x.
Proof.
  revert ks. induction x as [|a x IH]; intros [|k ks] Hl; cbn in *;
    try reflexivity; try lia.
  rewrite Z.lxor_assoc, Z.lxor_nilpotent, Z.lxor_0_r.
  f_equal. apply IH. lia.
Qed.

Lemma gctr_length key icb x : length (Gcm.gctr key icb x) = length x.
Proof.
  unfold Gcm.gctr. rewrite length_zip_with, keystream_length.
  pose proof (block_count_covers (length x)). lia.
Qed.

(** Counter mode is its own inverse. *)
Lemma gctr_involutive key icb x :
  Gcm.gctr key icb (Gcm.gctr key icb x) = x.
Proof.
  unfold Gcm.gctr at 1. rewrite gctr_length. unfold Gcm.gctr.
  apply xor_twice. rewrite keystream_length. apply block_count_covers.
Qed.

Lemma bytes_of_int_length n x : length (Gcm.bytes_of_int n x) = n.
Proof. unfold Gcm.bytes_of_int. now rewrite length_map, length_seq. Qed.

Lemma tag_length key iv c : length (Gcm.tag key iv c) = 16%nat.
Proof. unfold Gcm.tag. now rewrite gctr_length, bytes_of_int_length. Qed.

Lemma encrypt_length key iv p :
  length (Gcm.encrypt key iv p) = (length p + 16)%nat.
Proof.
  unfold Gcm.encrypt. now rewrite length_app, gctr_length, tag_length.
Qed.

(** What [decrypt] does to a ciphertext followed by a sixteen byte tag. *)
Lemma decrypt_split key iv c t :
  length t = 16%nat ->
  Gcm.decrypt key iv (c ++ t) =
    if Gcm.bytes_eqb (Gcm.tag key iv c) t
    then Some (Gcm.gctr key (Gcm.inc32 (Gcm.j0 key iv)) c)
    else None.
Proof.
  intros Ht. unfold Gcm.decrypt. rewrite length_app, Ht.
  destruct (Nat.ltb_spec (length c + 16) 16) as [|_]; [lia|].
  replace (length c + 16 - 16)%nat with (length c) by lia.
  now rewrite take_app_length, drop_app_length.
Qed.

Lemma decrypt_encrypt key iv p :
  Gcm.decrypt key iv (Gcm.encrypt key iv p) = Some p.
Proof.
  unfold Gcm.encrypt. rewrite decrypt_split by apply tag_length.
  unfold Gcm.bytes_eqb. rewrite bool_decide_eq_true_2 by reflexivity.
  now rewrite gctr_involutive.
Qed.

(** [decrypt] refuses exactly the inputs that are shorter than a tag or
    whose last sixteen bytes are not the tag of what precedes them. *)
Lemma decrypt_None key iv ct :
  Gcm.decrypt key iv ct = None <->
  (length ct < 16)%nat
  \/ Gcm.tag key iv (take (length ct - 16) ct) <> drop (length ct - 16) ct.
Proof.
  unfold Gcm.decrypt, Gcm.bytes_eqb.
  destruct (Nat.ltb_spec (length ct) 16) as [Hs|Hs]; [tauto|].
  case_bool_decide as Ht; split; try tauto; try discriminate.
  intros [H|H]; [lia|contradiction].
Qed.

End CipherFacts.

(** ** The producer *)

Module ProducerFacts.
Import Producer.

Lemma Uint8Array_from_drawn g k n :
  Js.Uint8Array_from (drawn g k n) = drawn g k n.
Proof.
  unfold Js.Uint8Array_from, drawn. rewrite map_map.
  apply map_ext. intros i. apply Z.mod_mod. lia.
Qed.

Lemma drawn_length g k n : length (drawn g k n) = n.
Proof. unfold drawn. now rewrite length_map, length_seq. Qed.

Lemma set_prefix (a : list Z) (n : nat) :
  Js.set (Js.Uint8Array_new (length a + n)) a 0
  = inr (a ++ Js.Uint8Array_new n).
Proof.
  unfold Js.set, Js.Uint8Array_new. rewrite repeat_length.
  destruct (Nat.leb_spec (0 + length a) (length a + n)) as [_|]; [|lia].
  cbn [Nat.add]. rewrite take_0. cbn [app].
  rewrite repeat_app, drop_app_length'; [reflexivity|].
  now rewrite repeat_length.
Qed.

Lemma set_suffix (a b : list Z) :
  Js.set (a ++ Js.Uint8Array_new (length b)) b (length a) = inr (a ++ b).
Proof.
  unfold Js.set, Js.Uint8Array_new.
  rewrite length_app, repeat_length.
  destruct (Nat.leb_spec (length a + length b) (length a + length b))
    as [_|]; [|lia].
  rewrite take_app_length, drop_ge, app_nil_r; [reflexivity|].
  rewrite length_app, repeat_length. lia.
Qed.

Lemma getRandomValues_drawn n g :
  getRandomValues (Js.Uint8Array_new n) g
  = (drawn g 0 n, {| stream := stream g; pos := (pos g + n)%nat |}).
Proof.
  unfold getRandomValues, drawn, Js.Uint8Array_new.
  rewrite repeat_length. f_equal. apply map_ext. intros i.
  now rewrite Nat.add_0_r.
Qed.

(** The whole script in one equation: the key is the first 32 bytes of
    the random source, the nonce the next 12, and the envelope file is the
    nonce followed by the output of the cipher. *)
Lemma encryptVideo_eq (fileBuffer : list Z) (g : rng) :
  let key := drawn g 0 32 in
  let iv := drawn g 32 12 in
  encryptVideo fileBuffer g =
    ([Eff.Encrypt iv key fileBuffer],
     inr {| encryptedVideo_bin := iv ++ Gcm.encrypt key iv fileBuffer;
            encryptionKey_json :=
              {| KeyMaterial.key := key; KeyMaterial.iv := iv |} |}).
Proof.
  intros key iv. unfold encryptVideo, generateKey.
  change (256 / 8)%nat with 32%nat.
  rewrite getRandomValues_drawn. fold key.
  rewrite getRandomValues_drawn. cbn [stream pos].
  change (drawn {| stream := stream g; pos := (pos g + 32)%nat |} 0 12)
    with (map (fun i => stream g (pos g + 32 + 0 + i)%nat mod 256)
            (seq 0 12)).
  replace (map (fun i => stream g (pos g + 32 + 0 + i)%nat mod 256)
             (seq 0 12)) with iv
    by (apply map_ext; intros i; now rewrite Nat.add_0_r).
  cbn [Subtle.exportKey Subtle.raw].
  assert (Subtle.encrypt iv {| Subtle.raw := key |} fileBuffer
          = inr (Gcm.encrypt key iv fileBuffer)) as ->.
  { unfold Subtle.encrypt, iv. now rewrite drawn_length. }
  cbn [Eff.bind Eff.emit Eff.lift Eff.ret].
  rewrite set_prefix. cbn [Eff.bind Eff.emit Eff.lift Eff.ret].
  rewrite set_suffix. reflexivity.
Qed.

End ProducerFacts.

(** ** The consumer *)

Module ConsumerFacts.
Import Consumer.

(** A run in which both fetches succeed and the key has a length that
    [importKey] accepts reaches [decrypt] with these arguments. *)
Lemma decrypted_eq net now st1 st2 envelope keyData :
  get_blob net (video_url now) = Responded st1 (inr envelope) ->
  ok st1 = true ->
  get_json net key_url = Responded st2 (inr keyData) ->
  ok st2 = true ->
  let rawKey := Js.Uint8Array_from (KeyMaterial.key keyData) in
  let ivFromKey := Js.Uint8Array_from (KeyMaterial.iv keyData) in
  let ciphertext := Js.slice_from envelope 12 in
  forall cryptoKey, Subtle.importKey rawKey = inr cryptoKey ->
  decrypted net now =
    ([Eff.Fetch (video_url now); Eff.Fetch key_url;
      Eff.ConsoleLog "IV extracted from file:" (Js.slice envelope 0 12);
      Eff.ConsoleLog "IV from encryptionKey.json:" ivFromKey;
      Eff.ImportKey rawKey;
      Eff.Decrypt ivFromKey rawKey ciphertext],
     Subtle.decrypt ivFromKey {| Subtle.raw := rawKey |} ciphertext).
Proof.
  intros Hb Hok1 Hj Hok2 rawKey ivFromKey ciphertext cryptoKey Hk.
  assert (cryptoKey = {| Subtle.raw := rawKey |}) as ->.
  { unfold Subtle.importKey in Hk.
    destruct (_ || _)%bool in Hk; congruence. }
  unfold decrypted, fetch_ok.
  rewrite Hb, Hj, Hok1, Hok2. cbn [negb].
  cbn [Eff.bind Eff.emit Eff.lift].
  fold rawKey ivFromKey ciphertext. rewrite Hk.
  cbn [Eff.bind Eff.emit Eff.lift app Subtle.raw].
  now destruct (Subtle.decrypt _ _ _).
Qed.

Lemma loadAndDisplay_eq net now doc st1 st2 envelope keyData cryptoKey :
  get_blob net (video_url now) = Responded st1 (inr envelope) ->
  ok st1 = true ->
  get_json net key_url = Responded st2 (inr keyData) ->
  ok st2 = true ->
  let rawKey := Js.Uint8Array_from (KeyMaterial.key keyData) in
  let ivFromKey := Js.Uint8Array_from (KeyMaterial.iv keyData) in
  let ciphertext := Js.slice_from envelope 12 in
  let calls :=
    [Eff.Fetch (video_url now); Eff.Fetch key_url;
     Eff.ConsoleLog "IV extracted from file:" (Js.slice envelope 0 12);
     Eff.ConsoleLog "IV from encryptionKey.json:" ivFromKey;
     Eff.ImportKey rawKey;
     Eff.Decrypt ivFromKey rawKey ciphertext] in
  Subtle.importKey rawKey = inr cryptoKey ->
  loadAndDisplay net now doc =
    match Subtle.decrypt ivFromKey {| Subtle.raw := rawKey |} ciphertext with
    | inr plaintext => (rendered doc plaintext, calls)
    | inl e => (failed doc,
                calls ++ [Eff.ConsoleError "Decryption failed:" e])
    end.
Proof.
  intros Hb Hok1 Hj Hok2 rawKey ivFromKey ciphertext calls Hk.
  unfold loadAndDisplay.
  rewrite (decrypted_eq net now st1 st2 envelope keyData Hb Hok1 Hj Hok2
             cryptoKey Hk).
  fold rawKey ivFromKey ciphertext calls.
  now destruct (Subtle.decrypt _ _ _).
Qed.

Lemma serving_blob envelope keyData url :
  get_blob (serving envelope keyData) url = Responded 200 (inr envelope).
Proof. reflexivity. Qed.

Lemma serving_json envelope keyData url :
  get_json (serving envelope keyData) url = Responded 200 (inr keyData).
Proof. reflexivity. Qed.

Lemma importKey_32 rawKey :
  length rawKey = 32%nat ->
  Subtle.importKey rawKey = inr {| Subtle.raw := rawKey |}.
Proof. intros H. unfold Subtle.importKey. now rewrite H. Qed.

Lemma subtle_decrypt_encrypt key iv p :
  iv <> [] ->
  Subtle.decrypt iv key (Gcm.encrypt (Subtle.raw key) iv p) = inr p.
Proof.
  intros Hiv. unfold Subtle.decrypt. destruct iv; [congruence|].
  cbn [length Nat.eqb]. now rewrite CipherFacts.decrypt_encrypt.
Qed.

Lemma subtle_decrypt_fails key iv ct :
  iv <> [] -> Gcm.decrypt (Subtle.raw key) iv ct = None ->
  Subtle.decrypt iv key ct = inl Js.OperationError.
Proof.
  intros Hiv Hn. unfold Subtle.decrypt. destruct iv; [congruence|].
  cbn [length Nat.eqb]. now rewrite Hn.
Qed.

(** Every run ends in the [catch] block, with the document as [failed]
    leaves it, or shows what the cipher returned after verifying the tag. *)
Lemma plaintext_only_after_verification net now doc :
  let run := loadAndDisplay net now doc in
  (fst run = failed doc
   /\ exists e, last (snd run)
               = Some (Eff.ConsoleError "Decryption failed:" e))
  \/ exists st1 st2 envelope keyData plaintext,
       get_blob net (video_url now) = Responded st1 (inr envelope)
       /\ ok st1 = true
       /\ get_json net key_url = Responded st2 (inr keyData)
       /\ ok st2 = true
       /\ Gcm.decrypt (Js.Uint8Array_from (KeyMaterial.key keyData))
            (Js.Uint8Array_from (KeyMaterial.iv keyData))
            (Js.slice_from envelope 12) = Some plaintext
       /\ fst run = rendered doc plaintext.
Proof.
  cbn zeta. unfold loadAndDisplay.
  destruct (decrypted net now) as [log [e|p]] eqn:E.
  { left. cbn [fst snd]. split; [reflexivity|].
    exists e. apply last_snoc. }
  right. unfold decrypted, fetch_ok in E.
  destruct (get_blob net (video_url now)) as [e1|st1 [e1|envelope]] eqn:Hb;
    cbn [Eff.bind Eff.emit Eff.lift Eff.throw] in E; try discriminate.
  all: destruct (ok st1) eqn:Hok1;
    cbn [Eff.bind Eff.emit Eff.lift Eff.throw negb] in E; try discriminate.
  destruct (get_json net key_url) as [e2|st2 [e2|keyData]] eqn:Hj;
    cbn [Eff.bind Eff.emit Eff.lift Eff.throw] in E; try discriminate.
  all: destruct (ok st2) eqn:Hok2;
    cbn [Eff.bind Eff.emit Eff.lift Eff.throw negb] in E; try discriminate.
  destruct (Subtle.importKey (Js.Uint8Array_from (KeyMaterial.key keyData)))
    as [e3|cryptoKey] eqn:Hk;
    cbn [Eff.bind Eff.emit Eff.lift Eff.throw] in E; try discriminate.
  assert (cryptoKey
          = {| Subtle.raw := Js.Uint8Array_from (KeyMaterial.key keyData) |})
    as ->.
  { unfold Subtle.importKey in Hk.
    destruct (_ || _)%bool in Hk; congruence. }
  destruct (Subtle.decrypt _ _ _) as [e4|p'] eqn:Hd in E;
    cbn [app] in E; [discriminate|].
  assert (p' = p) as -> by congruence.
  exists st1, st2, envelope, keyData, p.
  repeat (split; [reflexivity || assumption|]).
  split; [|reflexivity].
  unfold Subtle.decrypt in Hd. cbn [Subtle.raw] in Hd.
  destruct (length _ =? 0)%nat in Hd; [discriminate|].
  destruct (Gcm.decrypt _ _ _) in Hd |- *; congruence.
Qed.

(** A run that reaches [decrypt] with data the cipher refuses ends in the
    [catch] block with an [OperationError]. *)
Lemma refused_data_fails net now doc st1 st2 envelope keyData cryptoKey :
  get_blob net (video_url now) = Responded st1 (inr envelope) ->
  ok st1 = true ->
  get_json net key_url = Responded st2 (inr keyData) ->
  ok st2 = true ->
  let rawKey := Js.Uint8Array_from (KeyMaterial.key keyData) in
  let ivFromKey := Js.Uint8Array_from (KeyMaterial.iv keyData) in
  let ciphertext := Js.slice_from envelope 12 in
  Subtle.importKey rawKey = inr cryptoKey ->
  Gcm.decrypt rawKey ivFromKey ciphertext = None ->
  Subtle.decrypt ivFromKey cryptoKey ciphertext = inl Js.OperationError
  /\ fst (loadAndDisplay net now doc) = failed doc
  /\ last (snd (loadAndDisplay net now doc))
     = Some (Eff.ConsoleError "Decryption failed:" Js.OperationError).
Proof.
  intros Hb Hok1 Hj Hok2 rawKey ivFromKey ciphertext Hk Hn.
  assert (cryptoKey = {| Subtle.raw := rawKey |}) as ->.
  { unfold Subtle.importKey in Hk.
    destruct (_ || _)%bool in Hk; congruence. }
  assert (Subtle.decrypt ivFromKey {| Subtle.raw := rawKey |} ciphertext
          = inl Js.OperationError) as Hd.
  { unfold Subtle.decrypt. cbn [Subtle.raw]. rewrite Hn.
    now destruct (length ivFromKey =? 0)%nat. }
  rewrite (loadAndDisplay_eq net now doc st1 st2 envelope keyData _
             Hb Hok1 Hj Hok2 Hk).
  fold rawKey ivFromKey ciphertext. rewrite Hd. cbn [fst snd].
  split; [reflexivity|]. split; [reflexivity|].
  now rewrite last_snoc.
Qed.

End ConsumerFacts.


(** ** The envelope between producer and consumer *)

Module EnvelopeFacts.
Import Producer Consumer.

(** Any 32-byte key and 12-byte nonce is what some random source yields,
    so the statements below, made for every source, cover every key. *)
Lemma every_key_and_nonce_is_drawn (key iv : list Z) :
  length key = 32%nat -> length iv = 12%nat ->
  Forall (fun b => 0 <= b < 256) (key ++ iv) ->
  let g := {| stream := fun i => nth i (key ++ iv) 0; pos := 0 |} in
  drawn g 0 32 = key /\ drawn g 32 12 = iv.
Proof.
  intros Hk Hi Hb g.
  assert (forall k n (l : list Z), length l = n ->
            (forall i, (i < n)%nat -> nth (k + i) (key ++ iv) 0 = nth i l 0) ->
            Forall (fun b => 0 <= b < 256) l ->
            drawn g k n = l) as H.
  { intros k n l Hl Hn Hf. unfold drawn. cbn [stream pos g Nat.add].
    apply nth_ext with (d := 0) (d' := 0).
    - now rewrite length_map, length_seq.
    - rewrite length_map, length_seq. intros i Hi'.
      rewrite (nth_indep _ 0 ((fun i => nth (k + i) (key ++ iv) 0 mod 256)
                                0%nat))
        by now rewrite length_map, length_seq.
      rewrite (map_nth (fun i => nth (k + i) (key ++ iv) 0 mod 256)).
      rewrite seq_nth by assumption. cbn [Nat.add]. rewrite Hn by assumption.
      apply Z.mod_small.
      rewrite Forall_forall in Hf. apply Hf, list_elem_of_In, nth_In. lia. }
  apply Forall_app in Hb as [Hbk Hbi]. split; apply H; auto.
  - intros i Hi'. cbn [Nat.add]. apply app_nth1. lia.
  - intros i Hi'. rewrite app_nth2 by lia. f_equal. lia.
Qed.

(** C1 as stated fails.  The producer's own envelope for [HELLOWORLD],
    served with the right key but with a key file whose [iv] is twelve
    zero bytes: [decrypt] is called with the twelve zero bytes, not with
    the first twelve bytes of the envelope, and the decryption fails. *)
Lemma decrypt_nonce_is_not_the_envelope_prefix :
  let g := {| stream := fun i => Z.of_nat (7 * i + 3); pos := 0 |} in
  let key := [3; 10; 17; 24; 31; 38; 45; 52; 59; 66; 73; 80; 87; 94; 101;
              108; 115; 122; 129; 136; 143; 150; 157; 164; 171; 178; 185;
              192; 199; 206; 213; 220] in
  let nonce := [227; 234; 241; 248; 255; 6; 13; 20; 27; 34; 41; 48] in
  let ciphertext := [227; 227; 135; 158; 154; 91; 99; 49; 57; 167; 1; 2;
                     193; 101; 195; 177; 158; 106; 45; 147; 139; 228; 9;
                     139; 240; 116] in
  let envelope := nonce ++ ciphertext in
  snd (encryptVideo [72; 69; 76; 76; 79; 87; 79; 82; 76; 68] g)
  = inr {| encryptedVideo_bin := envelope;
           encryptionKey_json :=
             {| KeyMaterial.key := key; KeyMaterial.iv := nonce |} |}
  /\ let keyData :=
       {| KeyMaterial.key := key; KeyMaterial.iv := repeat 0 12 |} in
     let run := loadAndDisplay (serving envelope keyData) 0 initial in
     Js.slice envelope 0 12 = nonce
     /\ Eff.decrypt_calls (snd run) = [(repeat 0 12, key, ciphertext)]
     /\ repeat 0 12 <> Js.slice envelope 0 12
     /\ fst run = failed initial.
Proof.
  vm_compute. split; [reflexivity|]. repeat split. discriminate.
Qed.

(** C1, as the code has it. When both fetches succeed and the key has a
    length the cipher accepts, [decrypt] is called once, with the [iv]
    field of the key material (as a [Uint8Array]) for nonce, the key of
    the key material, and the envelope from byte 12 on for data; the
    first twelve bytes of the envelope are only logged. *)
Theorem decrypt_nonce_is_key_material_iv
    (net : network) (now : Z) (doc : page) (st1 st2 : Z)
    (envelope : list Z) (keyData : KeyMaterial.t)
    (cryptoKey : Subtle.CryptoKey) :
  get_blob net (video_url now) = Responded st1 (inr envelope) ->
  ok st1 = true ->
  get_json net key_url = Responded st2 (inr keyData) ->
  ok st2 = true ->
  Subtle.importKey (Js.Uint8Array_from (KeyMaterial.key keyData))
  = inr cryptoKey ->
  Eff.decrypt_calls (snd (loadAndDisplay net now doc))
  = [(Js.Uint8Array_from (KeyMaterial.iv keyData),
      Js.Uint8Array_from (KeyMaterial.key keyData),
      Js.slice_from envelope 12)].
Proof.
  intros Hb Hok1 Hj Hok2 Hk.
  rewrite (ConsumerFacts.loadAndDisplay_eq net now doc st1 st2 envelope
             keyData cryptoKey Hb Hok1 Hj Hok2 Hk).
  destruct (Subtle.decrypt _ _ _); cbn [snd Eff.decrypt_calls app];
    reflexivity.
Qed.

Lemma decrypt_nonce_is_key_material_iv_witness :
  Eff.decrypt_calls
    (snd (loadAndDisplay
            (serving (repeat 1 12 ++ repeat 2 20)
               {| KeyMaterial.key := repeat 3 32;
                  KeyMaterial.iv := repeat 4 12 |})
            0 initial))
  = [(repeat 4 12, repeat 3 32, repeat 2 20)].
Proof.
  apply (decrypt_nonce_is_key_material_iv
           (serving (repeat 1 12 ++ repeat 2 20)
              {| KeyMaterial.key := repeat 3 32;
                 KeyMaterial.iv := repeat 4 12 |})
           0 initial 200 200 (repeat 1 12 ++ repeat 2 20)
           {| KeyMaterial.key := repeat 3 32;
              KeyMaterial.iv := repeat 4 12 |}
           {| Subtle.raw := repeat 3 32 |}).
  - reflexivity.
  - reflexivity.
  - reflexivity.
  - reflexivity.
  - reflexivity.
Defined.

(** The scenario of the design notes: [HELLOWORLD] gives an envelope of
    12 + 10 + 16 bytes, which the consumer turns back into [HELLOWORLD]. *)
Example helloworld_round_trip :
  let g := {| stream := fun i => Z.of_nat (7 * i + 3); pos := 0 |} in
  let file := [72; 69; 76; 76; 79; 87; 79; 82; 76; 68] in
  match snd (encryptVideo file g) with
  | inr out =>
      length (encryptedVideo_bin out) = 38%nat
      /\ fst (loadAndDisplay
                (serving (encryptedVideo_bin out) (encryptionKey_json out))
                0 initial)
         = rendered initial file
  | inl _ => False
  end.
Proof. vm_compute. split; reflexivity. Qed.

(** C2. Whatever file the producer encrypts and whatever key and nonce
    its random source yields, the script succeeds, writes a 32-byte key,
    and a consumer that is served the files it wrote shows exactly the
    bytes of the original file. *)
Theorem consumer_recovers_producer_plaintext
    (fileBuffer : list Z) (g : rng) (now : Z) (doc : page) :
  exists out,
    snd (encryptVideo fileBuffer g) = inr out
    /\ KeyMaterial.key (encryptionKey_json out) = drawn g 0 32
    /\ length (KeyMaterial.key (encryptionKey_json out)) = 32%nat
    /\ fst (loadAndDisplay
              (serving (encryptedVideo_bin out) (encryptionKey_json out))
              now doc)
       = rendered doc fileBuffer.
Proof.
  pose proof (ProducerFacts.encryptVideo_eq fileBuffer g) as Hp.
  cbn zeta in Hp. rewrite Hp. cbn [snd].
  eexists. split; [reflexivity|].
  cbn [encryptionKey_json encryptedVideo_bin KeyMaterial.key].
  split; [reflexivity|]. split; [apply ProducerFacts.drawn_length|].
  set (key := drawn g 0 32). set (iv := drawn g 32 12).
  assert (length iv = 12%nat) as Hiv by apply ProducerFacts.drawn_length.
  erewrite (ConsumerFacts.loadAndDisplay_eq _ now doc 200 200);
    [ | apply ConsumerFacts.serving_blob | reflexivity
      | apply ConsumerFacts.serving_json | reflexivity
      | apply ConsumerFacts.importKey_32 ].
  2: { cbn [KeyMaterial.key]. unfold key.
       rewrite ProducerFacts.Uint8Array_from_drawn.
       apply ProducerFacts.drawn_length. }
  cbn [KeyMaterial.key KeyMaterial.iv]. unfold key, iv.
  rewrite !ProducerFacts.Uint8Array_from_drawn. fold key iv.
  assert (Js.slice_from (iv ++ Gcm.encrypt key iv fileBuffer) 12
          = Gcm.encrypt key iv fileBuffer) as ->.
  { unfold Js.slice_from. rewrite <- Hiv. apply drop_app_length. }
  pose proof (ConsumerFacts.subtle_decrypt_encrypt
                {| Subtle.raw := key |} iv fileBuffer) as Hd.
  cbn [Subtle.raw] in Hd. rewrite Hd; [reflexivity|].
  intros E. now rewrite E in Hiv.
Qed.

(** C8. The file the producer writes is the 12-byte nonce followed by
    the output of the cipher and nothing else, so its length is 12 plus
    the length of the ciphertext; the consumer splits it at byte 12: it
    logs the first twelve bytes, which are the nonce, and hands the rest,
    which is the ciphertext, to [decrypt]. *)
Theorem envelope_is_nonce_then_ciphertext
    (fileBuffer : list Z) (g : rng) (now : Z) (doc : page) :
  exists out ciphertext,
    snd (encryptVideo fileBuffer g) = inr out
    /\ let nonce := KeyMaterial.iv (encryptionKey_json out) in
       let key := KeyMaterial.key (encryptionKey_json out) in
       let envelope := encryptedVideo_bin out in
       let log :=
         snd (loadAndDisplay (serving envelope (encryptionKey_json out))
                now doc) in
       length nonce = 12%nat
       /\ Subtle.encrypt nonce {| Subtle.raw := key |} fileBuffer
          = inr ciphertext
       /\ envelope = nonce ++ ciphertext
       /\ length envelope = (12 + length ciphertext)%nat
       /\ Js.slice envelope 0 12 = nonce
       /\ Js.slice_from envelope 12 = ciphertext
       /\ In (Eff.ConsoleLog "IV extracted from file:" nonce) log
       /\ Eff.decrypt_calls log = [(nonce, key, ciphertext)].
Proof.
  pose proof (ProducerFacts.encryptVideo_eq fileBuffer g) as Hp.
  cbn zeta in Hp. rewrite Hp. cbn [snd].
  set (key := drawn g 0 32). set (iv := drawn g 32 12).
  assert (length iv = 12%nat) as Hiv by apply ProducerFacts.drawn_length.
  assert (Js.Uint8Array_from iv = iv) as Hfi
    by apply ProducerFacts.Uint8Array_from_drawn.
  assert (Js.Uint8Array_from key = key) as Hfk
    by apply ProducerFacts.Uint8Array_from_drawn.
  assert (Js.slice_from (iv ++ Gcm.encrypt key iv fileBuffer) 12
          = Gcm.encrypt key iv fileBuffer) as Hd.
  { unfold Js.slice_from. rewrite <- Hiv. apply drop_app_length. }
  assert (Js.slice (iv ++ Gcm.encrypt key iv fileBuffer) 0 12 = iv) as Ht.
  { unfold Js.slice. rewrite drop_0, <- Hiv. apply take_app_length. }
  exists {| encryptedVideo_bin := iv ++ Gcm.encrypt key iv fileBuffer;
            encryptionKey_json :=
              {| KeyMaterial.key := key; KeyMaterial.iv := iv |} |},
         (Gcm.encrypt key iv fileBuffer).
  split; [reflexivity|].
  cbn [encryptionKey_json encryptedVideo_bin KeyMaterial.key
         KeyMaterial.iv].
  erewrite (ConsumerFacts.loadAndDisplay_eq _ now doc 200 200);
    [ | apply ConsumerFacts.serving_blob | reflexivity
      | apply ConsumerFacts.serving_json | reflexivity
      | apply ConsumerFacts.importKey_32 ].
  2: { cbn [KeyMaterial.key]. rewrite Hfk.
       apply ProducerFacts.drawn_length. }
  cbn [KeyMaterial.key KeyMaterial.iv]. rewrite Hfi, Hfk, Hd, Ht.
  split; [exact Hiv|].
  split; [unfold Subtle.encrypt; cbn [Subtle.raw]; now rewrite Hiv|].
  split; [reflexivity|].
  split; [now rewrite length_app, Hiv|].
  split; [reflexivity|]. split; [reflexivity|].
  destruct (Subtle.decrypt _ _ _); cbn [snd app In Eff.decrypt_calls];
    split; auto.
Qed.

(** C3 as stated fails on its last part.  The file
    [25, 107, 240, ...] encrypted under the key [0, 1, ..., 31] with the
    nonce [0, 1, ..., 11] gives an envelope that the all-zero key, a
    different key, decrypts without any failure: the tag verifies under
    both keys, and the consumer shows sixteen bytes that are not the
    file. *)
Lemma wrong_key_is_accepted :
  let g := {| stream := fun i => Z.of_nat (i mod 32); pos := 0 |} in
  let file := [25; 107; 240; 136; 16; 103; 167; 182; 92; 138; 221; 97;
               218; 107; 9; 210] in
  let k1 := map Z.of_nat (seq 0 32) in
  let k2 := repeat 0 32 in
  let nonce := map Z.of_nat (seq 0 12) in
  let envelope :=
    nonce ++ [94; 105; 38; 147; 213; 130; 101; 173; 209; 203; 74; 234;
              107; 130; 113; 191; 107; 159; 117; 251; 75; 241; 208; 252;
              251; 129; 111; 247; 141; 132; 87; 254] in
  snd (encryptVideo file g)
  = inr {| encryptedVideo_bin := envelope;
           encryptionKey_json :=
             {| KeyMaterial.key := k1; KeyMaterial.iv := nonce |} |}
  /\ k1 <> k2
  /\ fst (loadAndDisplay
            (serving envelope
               {| KeyMaterial.key := k2; KeyMaterial.iv := nonce |})
            0 initial)
     = rendered initial [214; 162; 21; 193; 213; 127; 234; 84; 19; 179;
                         24; 15; 150; 129; 175; 179].
Proof.
  vm_compute. split; [reflexivity|]. split; [discriminate|reflexivity].
Qed.

(** C3, as the code has it. On a run that reaches [decrypt]: when the
    data after byte 12 is shorter than a tag, or its last sixteen bytes
    are not the tag that the cipher computes, under the key and the nonce
    of the key material, over the bytes before them, [decrypt] raises
    [OperationError], the document keeps its video source and only gets
    the failure message, and the error is what the console shows last. *)
Theorem unverified_tag_renders_nothing
    (net : network) (now : Z) (doc : page) (st1 st2 : Z)
    (envelope : list Z) (keyData : KeyMaterial.t)
    (cryptoKey : Subtle.CryptoKey) :
  get_blob net (video_url now) = Responded st1 (inr envelope) ->
  ok st1 = true ->
  get_json net key_url = Responded st2 (inr keyData) ->
  ok st2 = true ->
  let rawKey := Js.Uint8Array_from (KeyMaterial.key keyData) in
  let nonce := Js.Uint8Array_from (KeyMaterial.iv keyData) in
  let data := Js.slice_from envelope 12 in
  Subtle.importKey rawKey = inr cryptoKey ->
  (length data < 16)%nat
  \/ Gcm.tag rawKey nonce (take (length data - 16) data)
     <> drop (length data - 16) data ->
  Subtle.decrypt nonce cryptoKey data = inl Js.OperationError
  /\ fst (loadAndDisplay net now doc) = failed doc
  /\ videoPlayer_src (fst (loadAndDisplay net now doc))
     = videoPlayer_src doc
  /\ last (snd (loadAndDisplay net now doc))
     = Some (Eff.ConsoleError "Decryption failed:" Js.OperationError).
Proof.
  intros Hb Hok1 Hj Hok2 rawKey nonce data Hk Hbad.
  apply CipherFacts.decrypt_None in Hbad.
  destruct (ConsumerFacts.refused_data_fails net now doc st1 st2 envelope
              keyData cryptoKey Hb Hok1 Hj Hok2 Hk Hbad) as (Hd & Hf & Hl).
  split; [exact Hd|]. split; [exact Hf|]. split; [now rewrite Hf|exact Hl].
Qed.

(** The envelope of [HELLOWORLD] under the key [3, 10, 17, ...], served
    with the all-zero key. *)
Lemma unverified_tag_renders_nothing_witness :
  let envelope :=
    [227; 234; 241; 248; 255; 6; 13; 20; 27; 34; 41; 48; 227; 227; 135;
     158; 154; 91; 99; 49; 57; 167; 1; 2; 193; 101; 195; 177; 158; 106;
     45; 147; 139; 228; 9; 139; 240; 116] in
  let keyData :=
    {| KeyMaterial.key := repeat 0 32;
       KeyMaterial.iv := [227; 234; 241; 248; 255; 6; 13; 20; 27; 34; 41;
                          48] |} in
  let run := loadAndDisplay (serving envelope keyData) 0 initial in
  fst run = failed initial
  /\ videoPlayer_src (fst run) = None
  /\ last (snd run)
     = Some (Eff.ConsoleError "Decryption failed:" Js.OperationError).
Proof.
  intros envelope keyData.
  refine (proj2 (unverified_tag_renders_nothing
                   (serving envelope keyData) 0 initial 200 200 envelope
                   keyData {| Subtle.raw := repeat 0 32 |} _ _ _ _ _ _)).
  - reflexivity.
  - reflexivity.
  - reflexivity.
  - reflexivity.
  - reflexivity.
  - right. vm_compute. discriminate.
Defined.

(** The same for a key that differs from the producer's: the consumer
    fails whenever the tag recomputed under the other key is not the tag
    in the envelope. *)
Lemma other_key_fails_when_tags_differ
    (fileBuffer : list Z) (g : rng) (k2 : list Z) (now : Z) (doc : page) :
  let k1 := drawn g 0 32 in
  let nonce := drawn g 32 12 in
  let c := Gcm.gctr k1 (Gcm.inc32 (Gcm.j0 k1 nonce)) fileBuffer in
  length k2 = 32%nat ->
  Gcm.tag (Js.Uint8Array_from k2) nonce c <> Gcm.tag k1 nonce c ->
  fst (loadAndDisplay
         (serving (nonce ++ Gcm.encrypt k1 nonce fileBuffer)
            {| KeyMaterial.key := k2; KeyMaterial.iv := nonce |})
         now doc)
  = failed doc.
Proof.
  intros k1 nonce c Hl Hne.
  assert (length nonce = 12%nat) as Hn by apply ProducerFacts.drawn_length.
  assert (length (Js.Uint8Array_from k2) = 32%nat) as Hl'
    by (unfold Js.Uint8Array_from; now rewrite length_map).
  assert (Js.Uint8Array_from nonce = nonce) as Hfn
    by apply ProducerFacts.Uint8Array_from_drawn.
  assert (Js.slice_from (nonce ++ Gcm.encrypt k1 nonce fileBuffer) 12
          = c ++ Gcm.tag k1 nonce c) as Hd.
  { unfold Js.slice_from. rewrite <- Hn. apply drop_app_length. }
  apply (ConsumerFacts.refused_data_fails
           (serving (nonce ++ Gcm.encrypt k1 nonce fileBuffer)
              {| KeyMaterial.key := k2; KeyMaterial.iv := nonce |})
           now doc 200 200 (nonce ++ Gcm.encrypt k1 nonce fileBuffer)
           {| KeyMaterial.key := k2; KeyMaterial.iv := nonce |}
           {| Subtle.raw := Js.Uint8Array_from k2 |});
    try reflexivity.
  - apply ConsumerFacts.importKey_32, Hl'.
  - cbn [KeyMaterial.key KeyMaterial.iv]. rewrite Hfn, Hd.
    rewrite CipherFacts.decrypt_split by apply CipherFacts.tag_length.
    unfold Gcm.bytes_eqb. now rewrite bool_decide_eq_false_2.
Qed.

End EnvelopeFacts.

(** * Further properties of the code *)

(** ** The proxy: expiry, failures, and what the cache can hold *)

Module ProxyLogFacts.
Import IpfsProxy ProxyLog IpfsProxyFacts.

Lemma valid_entry_stale cache cid now e :
  cache !! cid = Some e -> CACHE_TTL <= now - timestamp e ->
  valid_entry cache cid now = None.
Proof.
  intros Hl Hge. unfold valid_entry. rewrite Hl.
  destruct (Z.ltb_spec (now - timestamp e) CACHE_TTL); [lia|reflexivity].
Qed.

(** X1. An entry whose age has reached [CACHE_TTL] (300000 ms, the bound
    included) is not served: the gateway is asked once, and when it answers
    with a success status the caller gets the new bytes and the entry is
    replaced by one stamped with the time of this call. *)
Theorem stale_entry_is_refetched
    (fetch : string -> fetch_result) (now : Z) (cid : string)
    (cache : gmap string CacheEntry) (e : CacheEntry)
    (st : Z) (ctype : option string) (bytes : list Z) :
  cid <> "" ->
  cache !! cid = Some e ->
  CACHE_TTL <= now - timestamp e ->
  fetch (ipfsUrl cid) = FetchResponse st ctype (BodyBytes bytes) ->
  ok st = true ->
  let o := handler fetch now (get cid) cache in
  out_upstream o = [ipfsUrl cid]
  /\ out_res o = success bytes ctype
  /\ out_cache o !! cid
     = Some {| data := bytes; contentType := ctype; timestamp := now |}.
Proof.
  intros Hc Hl Hge Hf Hok o. subst o.
  rewrite (handler_fetched fetch now cid cache st ctype bytes Hc
             (valid_entry_stale _ _ _ _ Hl Hge) Hf Hok).
  cbn [out_upstream out_res out_cache].
  split; [reflexivity|]. split; [reflexivity|apply lookup_insert_eq].
Qed.

(** An entry stamped 0 read at 300000 exactly. *)
Lemma stale_entry_is_refetched_witness :
  let old := {| data := [1]; contentType := None; timestamp := 0 |} in
  let fetch := fun _ : string =>
    FetchResponse 200 (Some "video/mp4") (BodyBytes [2; 3]) in
  let o := handler fetch 300000 (get "QmA") {["QmA" := old]} in
  out_upstream o = [ipfsUrl "QmA"]
  /\ out_res o = success [2; 3] (Some "video/mp4")
  /\ out_cache o !! "QmA"
     = Some {| data := [2; 3]; contentType := Some "video/mp4";
               timestamp := 300000 |}.
Proof.
  intros old fetch.
  apply (stale_entry_is_refetched fetch 300000 "QmA" {["QmA" := old]} old
           200 (Some "video/mp4") [2; 3]).
  - discriminate.
  - vm_compute. reflexivity.
  - vm_compute. discriminate.
  - reflexivity.
  - reflexivity.
Defined.

(** X2. There is no fallback to a stale entry: when the entry is too old
    and the gateway cannot be reached, or its body cannot be read, the
    answer is 500 with the message of the error, the old bytes are not
    sent, and the entry stays in the cache as it was. *)
Theorem stale_entry_is_not_a_fallback
    (fetch : string -> fetch_result) (now : Z) (cid : string)
    (cache : gmap string CacheEntry) (e : CacheEntry) (message : string) :
  cid <> "" ->
  cache !! cid = Some e ->
  CACHE_TTL <= now - timestamp e ->
  fetch (ipfsUrl cid) = FetchThrows message
  \/ (exists st ctype,
        fetch (ipfsUrl cid) = FetchResponse st ctype (BodyThrows message)
        /\ ok st = true) ->
  let o := handler fetch now (get cid) cache in
  statusCode (out_res o) = 500
  /\ body (out_res o) = JsonError message
  /\ out_cache o = cache
  /\ out_cache o !! cid = Some e.
Proof.
  intros Hc Hl Hge Hf o. subst o.
  pose proof (valid_entry_stale _ _ _ _ Hl Hge) as Hv.
  destruct Hf as [Hf|(st & ctype & Hf & Hok)].
  - rewrite (handler_rejected fetch now cid cache message Hc Hv Hf).
    cbn. auto.
  - rewrite (handler_body_rejected fetch now cid cache st ctype message
               Hc Hv Hf Hok).
    cbn. auto.
Qed.

Lemma stale_entry_is_not_a_fallback_witness :
  let old := {| data := [1]; contentType := None; timestamp := 0 |} in
  let o := handler (fun _ => FetchThrows "fetch failed") 400000
             (get "QmA") {["QmA" := old]} in
  statusCode (out_res o) = 500
  /\ body (out_res o) = JsonError "fetch failed"
  /\ out_cache o = {["QmA" := old]}
  /\ out_cache o !! "QmA" = Some old.
Proof.
  intros old.
  apply (stale_entry_is_not_a_fallback (fun _ => FetchThrows "fetch failed")
           400000 "QmA" {["QmA" := old]} old "fetch failed").
  - discriminate.
  - vm_compute. reflexivity.
  - vm_compute. discriminate.
  - left. reflexivity.
Defined.

Lemma other_entries_are_untouched_aux fetch now req cache k :
  query_cid req <> Some k ->
  out_cache (handler fetch now req cache) !! k = cache !! k.
Proof.
  intros Hne.
  destruct (handler_run fetch now req cache)
    as [req H|cid e Hc Hv|cid m Hc Hv|cid st Hc Hv Hok|cid bytes ctype Hc Hv];
    cbn [out_cache]; try reflexivity.
  apply lookup_insert_ne. intros ->. apply Hne. reflexivity.
Qed.

(** X3. A call changes the cache at most under the [cid] it was made for:
    every other key, whatever sequence of calls for other identifiers is
    served, reads at the end as it did at the start. *)
Theorem other_entries_are_untouched
    (calls : list call) (cache : gmap string CacheEntry) (k : string) :
  Forall (fun c => query_cid (call_req c) <> Some k) calls ->
  final_cache calls cache !! k = cache !! k.
Proof.
  intros Hall. revert cache.
  induction Hall as [|c rest Hc _ IH]; intros cache; [reflexivity|].
  cbn [final_cache fold_left]. unfold final_cache in IH. rewrite IH.
  apply other_entries_are_untouched_aux, Hc.
Qed.

Lemma other_entries_are_untouched_witness :
  let fetch := fun _ : string => FetchResponse 200 None (BodyBytes [9]) in
  let other := {| data := [1]; contentType := None; timestamp := 0 |} in
  let calls :=
    [ {| call_fetch := fetch; call_now := 5; call_req := get "QmA" |};
      {| call_fetch := fetch; call_now := 6;
         call_req := {| query_cid := None |} |} ] in
  final_cache calls {["QmB" := other]} !! "QmB" = Some other.
Proof.
  intros fetch other calls.
  rewrite (other_entries_are_untouched calls {["QmB" := other]} "QmB").
  - vm_compute. reflexivity.
  - repeat constructor; discriminate.
Defined.

Lemma step_hit cache c cid e :
  cid <> "" -> cache !! cid = Some e ->
  call_req c = get cid -> call_now c - timestamp e < CACHE_TTL ->
  step cache c =
    {| out_res := success (data e) (contentType e);
       out_cache := cache; out_upstream := [] |}.
Proof.
  intros Hc Hl Hr Hlt. unfold step. rewrite Hr.
  apply handler_hit; [exact Hc|]. now apply valid_entry_fresh.
Qed.

(** X4. Reading does not extend the life of an entry.  Calls for one
    identifier, as many as one likes, each made before the entry is
    [CACHE_TTL] old, are all answered with the stored bytes, none asks the
    gateway, and the cache is afterwards exactly what it was: the time
    stamp is the one of the fetch, not of the last read. *)
Theorem reads_do_not_extend_life
    (calls : list call) (cache : gmap string CacheEntry)
    (cid : string) (e : CacheEntry) :
  cid <> "" ->
  cache !! cid = Some e ->
  Forall (fun c => call_req c = get cid
                   /\ call_now c - timestamp e < CACHE_TTL) calls ->
  final_cache calls cache = cache
  /\ upstream_log calls cache = []
  /\ Forall (fun o => out_res o = success (data e) (contentType e))
            (serve calls cache).
Proof.
  intros Hc Hl Hall. unfold upstream_log, final_cache.
  induction Hall as [|c rest [Hr Hlt] _ IH]; cbn [serve fold_left map concat].
  { repeat split. constructor. }
  rewrite (step_hit cache c cid e Hc Hl Hr Hlt).
  cbn [out_cache out_upstream out_res app].
  destruct IH as (IH1 & IH2 & IH3).
  split; [exact IH1|]. split; [exact IH2|].
  constructor; [reflexivity|exact IH3].
Qed.

(** Three reads, the last one millisecond before the entry expires. *)
Lemma reads_do_not_extend_life_witness :
  let e := {| data := [1; 2]; contentType := None; timestamp := 1000 |} in
  let down := fun _ : string => FetchThrows "fetch failed" in
  let read := fun t =>
    {| call_fetch := down; call_now := t; call_req := get "QmA" |} in
  let calls := [read 1000; read 200000; read 300999] in
  final_cache calls {["QmA" := e]} = {["QmA" := e]}
  /\ upstream_log calls {["QmA" := e]} = []
  /\ Forall (fun o => out_res o = success [1; 2] None)
            (serve calls {["QmA" := e]}).
Proof.
  intros e down read calls.
  apply (reads_do_not_extend_life calls {["QmA" := e]} "QmA" e).
  - discriminate.
  - vm_compute. reflexivity.
  - repeat constructor.
Defined.

(** What one call can do to the cache: nothing, or the assignment made
    after a successful fetch. *)
Lemma handler_cache_cases fetch now req cache :
  out_cache (handler fetch now req cache) = cache
  \/ exists cid st ctype bytes,
       req = get cid /\ cid <> ""
       /\ fetch (ipfsUrl cid) = FetchResponse st ctype (BodyBytes bytes)
       /\ ok st = true
       /\ out_cache (handler fetch now req cache)
          = <[cid := {| data := bytes; contentType := ctype;
                        timestamp := now |}]> cache.
Proof.
  destruct req as [[cid|]].
  2: { left. now rewrite handler_missing by auto. }
  destruct (String.eqb_spec cid "") as [->|Hc].
  { left. now rewrite handler_missing by auto. }
  change {| query_cid := Some cid |} with (get cid).
  destruct (valid_entry cache cid now) as [e|] eqn:Hv.
  { left. now rewrite (handler_hit _ _ _ _ e). }
  destruct (fetch (ipfsUrl cid)) as [m|st ctype buffer] eqn:Hf.
  { left. now rewrite (handler_rejected _ _ _ _ m). }
  destruct (ok st) eqn:Hok.
  2: { left. now rewrite (handler_not_ok _ _ _ _ st ctype buffer). }
  destruct buffer as [bytes|m].
  - right. exists cid, st, ctype, bytes.
    rewrite (handler_fetched _ _ _ _ st ctype bytes) by assumption.
    auto.
  - left. now rewrite (handler_body_rejected _ _ _ _ st ctype m).
Qed.

Lemma step_lookup cache c k e :
  out_cache (step cache c) !! k = Some e ->
  cache !! k = Some e \/ written_by c k e.
Proof.
  unfold step. intros Hl.
  destruct (handler_cache_cases (call_fetch c) (call_now c) (call_req c)
              cache) as [H|(cid & st & ctype & bytes & Hr & Hc & Hf & Hok & H)];
    rewrite H in Hl; [now left|].
  destruct (decide (cid = k)) as [->|Hne].
  - rewrite lookup_insert_eq in Hl. injection Hl as <-. right.
    unfold written_by. cbn [timestamp contentType data]. eauto 10.
  - rewrite lookup_insert_ne in Hl by assumption. now left.
Qed.

Lemma final_cache_lookup calls cache k e :
  final_cache calls cache !! k = Some e ->
  cache !! k = Some e \/ exists c, In c calls /\ written_by c k e.
Proof.
  revert cache. induction calls as [|c rest IH]; intros cache Hl.
  { now left. }
  cbn [final_cache fold_left] in Hl.
  destruct (IH _ Hl) as [H|(c' & Hin & Hw)].
  - destruct (step_lookup _ _ _ _ H) as [H'|Hw]; [now left|].
    right. exists c. split; [now left|exact Hw].
  - right. exists c'. split; [now right|exact Hw].
Qed.

(** X5. Starting from the empty cache, whatever requests are served,
    every entry found in the cache was put there by one of them: a request
    for that very identifier, which is not empty, to which the gateway
    answered with a success status; the entry holds the bytes and the
    content type of that answer and the time of that request.  Error
    answers are never cached. *)
Theorem cached_entries_come_from_successful_fetches
    (calls : list call) (k : string) (e : CacheEntry) :
  final_cache calls ∅ !! k = Some e ->
  exists c, In c calls /\ written_by c k e.
Proof.
  intros Hl. destruct (final_cache_lookup calls ∅ k e Hl) as [H|H].
  - rewrite lookup_empty in H. discriminate.
  - exact H.
Qed.

(** A 404 for one identifier, then a success for another. *)
Lemma cached_entries_come_from_successful_fetches_witness :
  let gone := fun _ : string => FetchResponse 404 None (BodyBytes [4]) in
  let up := fun _ : string => FetchResponse 200 None (BodyBytes [7]) in
  let calls :=
    [ {| call_fetch := gone; call_now := 10; call_req := get "QmA" |};
      {| call_fetch := up; call_now := 20; call_req := get "QmB" |} ] in
  final_cache calls ∅ !! "QmA" = None
  /\ exists c, In c calls
       /\ written_by c "QmB"
            {| data := [7]; contentType := None; timestamp := 20 |}.
Proof.
  intros gone up calls. split; [vm_compute; reflexivity|].
  apply (cached_entries_come_from_successful_fetches calls "QmB"
           {| data := [7]; contentType := None; timestamp := 20 |}).
  vm_compute. reflexivity.
Defined.




Lemma upstream_is_for_the_cid fetch now req cache url :
  In url (out_upstream (handler fetch now req cache)) ->
  exists cid, req = get cid /\ cid <> "" /\ url = ipfsUrl cid.
Proof.
  destruct (handler_run fetch now req cache)
    as [req H|cid e Hc Hv|cid m Hc Hv|cid st Hc Hv Hok|cid bytes ctype Hc Hv];
    cbn [out_upstream In]; try contradiction.
  all: intros [<-|[]]; exists cid; auto.
Qed.

(** X7. Serving a sequence of requests, the proxy asks the gateway at most
    once per request, and only for the address
    [https://gateway.pinata.cloud/ipfs/<cid>] of a [cid], not empty, that
    one of the requests carried. *)
Theorem upstream_requests_are_for_requested_cids
    (calls : list call) (cache : gmap string CacheEntry) :
  (length (upstream_log calls cache) <= length calls)%nat
  /\ forall url, In url (upstream_log calls cache) ->
       exists c cid, In c calls /\ call_req c = get cid /\ cid <> ""
                     /\ url = ipfsUrl cid.
Proof.
  unfold upstream_log. revert cache.
  induction calls as [|c rest IH]; intros cache; cbn [serve map concat].
  { split; [cbn; lia|intros url []]. }
  destruct (IH (out_cache (step cache c))) as [IHl IHu].
  rewrite length_app. split.
  - pose proof (upstream_at_most_once (call_fetch c) (call_now c)
                  (call_req c) cache) as H1.
    unfold step at 1. cbn [length]. lia.
  - intros url Hin. apply in_app_or in Hin as [Hin|Hin].
    + destruct (upstream_is_for_the_cid _ _ _ _ _ Hin) as (cid & Hr & H).
      exists c, cid. split; [now left|]. tauto.
    + destruct (IHu url Hin) as (c' & cid & Hc' & Hr & Hne & Hu).
      exists c', cid. split; [now right|]. auto.
Qed.

End ProxyLogFacts.

(** ** The consumer: where a run stops, and what it lets through *)

Module ConsumerMore.
Import Producer Consumer ConsumerCases.

Lemma fetch_ok_failure {A : Type} url (r : fetched A) what e :
  fetch_failure r what e ->
  fetch_ok url r what = ([Eff.Fetch url], inl e).
Proof.
  intros [->|[(st & body & -> & Hok & ->)|(st & -> & Hok)]];
    unfold fetch_ok; rewrite ?Hok; reflexivity.
Qed.

Lemma fetch_ok_success {A : Type} url st (a : A) what :
  ok st = true ->
  fetch_ok url (Responded st (inr a)) what = ([Eff.Fetch url], inr a).
Proof. intros Hok. unfold fetch_ok. now rewrite Hok. Qed.

(** X8. When the envelope cannot be fetched (the request is rejected, the
    status is outside 200-299, or the body cannot be read), the run stops
    there: the key route is not asked, no key is imported, nothing is
    decrypted, and the document only gets the failure message.  For a bad
    status the error reads [Failed to fetch encrypted video: <status>]. *)
Theorem failed_video_fetch_stops_the_run
    (net : network) (now : Z) (doc : page) (e : Js.exn) :
  fetch_failure (get_blob net (video_url now))
    "Failed to fetch encrypted video: " e ->
  loadAndDisplay net now doc
  = (failed doc,
     [Eff.Fetch (video_url now); Eff.ConsoleError "Decryption failed:" e]).
Proof.
  intros Hf. unfold loadAndDisplay, decrypted.
  rewrite (fetch_ok_failure _ _ _ _ Hf). reflexivity.
Qed.

(** The proxy answering 404. *)
Lemma failed_video_fetch_stops_the_run_witness :
  let net := {| get_blob := fun _ => Responded 404 (inr []);
                get_json := fun _ => Rejected (Js.TypeError "unused") |} in
  loadAndDisplay net 7 initial
  = (failed initial,
     [Eff.Fetch (video_url 7);
      Eff.ConsoleError "Decryption failed:"
        (Js.Error "Failed to fetch encrypted video: 404")]).
Proof.
  intros net.
  apply (failed_video_fetch_stops_the_run net 7 initial
           (Js.Error "Failed to fetch encrypted video: 404")).
  right. left. exists 404, (inr []). repeat split.
Defined.

(** X9. When the envelope arrives but the key route fails (rejected
    request, status outside 200-299 such as the 500 of a route that is not
    configured, or a body that is not JSON), the run asks both addresses
    and stops: no key is imported and nothing is decrypted. *)
Theorem failed_key_fetch_stops_the_run
    (net : network) (now : Z) (doc : page) (st : Z) (envelope : list Z)
    (e : Js.exn) :
  get_blob net (video_url now) = Responded st (inr envelope) ->
  ok st = true ->
  fetch_failure (get_json net key_url) "Failed to fetch encryption key: " e ->
  loadAndDisplay net now doc
  = (failed doc,
     [Eff.Fetch (video_url now); Eff.Fetch key_url;
      Eff.ConsoleError "Decryption failed:" e]).
Proof.
  intros Hb Hok Hf. unfold loadAndDisplay, decrypted.
  rewrite Hb, (fetch_ok_success _ _ _ _ Hok).
  cbn [Eff.bind]. rewrite (fetch_ok_failure _ _ _ _ Hf). reflexivity.
Qed.

Lemma failed_key_fetch_stops_the_run_witness :
  let net := {| get_blob := fun _ => Responded 200 (inr [1; 2; 3]);
                get_json := fun _ => Responded 500 (inl (Js.Error "")) |} in
  loadAndDisplay net 7 initial
  = (failed initial,
     [Eff.Fetch (video_url 7); Eff.Fetch key_url;
      Eff.ConsoleError "Decryption failed:"
        (Js.Error "Failed to fetch encryption key: 500")]).
Proof.
  intros net.
  apply (failed_key_fetch_stops_the_run net 7 initial 200 [1; 2; 3]
           (Js.Error "Failed to fetch encryption key: 500")).
  - reflexivity.
  - reflexivity.
  - right. left. exists 500, (inl (Js.Error "")). repeat split.
Defined.

(** X10. A key of any length other than 16, 24 or 32 entries is refused by
    [importKey] with a [DataError]: both nonces have been logged by then,
    [decrypt] is never called, and the document only gets the failure
    message. *)
Theorem bad_key_length_is_refused
    (net : network) (now : Z) (doc : page) (st1 st2 : Z)
    (envelope : list Z) (keyData : KeyMaterial.t) :
  get_blob net (video_url now) = Responded st1 (inr envelope) ->
  ok st1 = true ->
  get_json net key_url = Responded st2 (inr keyData) ->
  ok st2 = true ->
  length (KeyMaterial.key keyData) <> 16%nat ->
  length (KeyMaterial.key keyData) <> 24%nat ->
  length (KeyMaterial.key keyData) <> 32%nat ->
  let run := loadAndDisplay net now doc in
  fst run = failed doc
  /\ Eff.decrypt_calls (snd run) = []
  /\ last (snd run)
     = Some (Eff.ConsoleError "Decryption failed:" Js.DataError).
Proof.
  intros Hb Hok1 Hj Hok2 H16 H24 H32. cbn zeta.
  unfold loadAndDisplay, decrypted.
  rewrite Hb, Hj, (fetch_ok_success _ _ _ _ Hok1),
    (fetch_ok_success _ _ _ _ Hok2).
  cbn [Eff.bind Eff.emit Eff.lift].
  assert (Subtle.importKey (Js.Uint8Array_from (KeyMaterial.key keyData))
          = inl Js.DataError) as ->.
  { unfold Subtle.importKey, Js.Uint8Array_from. rewrite length_map.
    destruct (Nat.eqb_spec (length (KeyMaterial.key keyData)) 16);
      [contradiction|].
    destruct (Nat.eqb_spec (length (KeyMaterial.key keyData)) 24);
      [contradiction|].
    destruct (Nat.eqb_spec (length (KeyMaterial.key keyData)) 32);
      [contradiction|reflexivity]. }
  cbn [Eff.bind Eff.emit Eff.lift app fst snd Eff.decrypt_calls].
  repeat split.
Qed.

(** A key file with 31 entries. *)
Lemma bad_key_length_is_refused_witness :
  let net := serving (repeat 1 40)
               {| KeyMaterial.key := repeat 0 31;
                  KeyMaterial.iv := repeat 0 12 |} in
  let run := loadAndDisplay net 7 initial in
  fst run = failed initial
  /\ Eff.decrypt_calls (snd run) = []
  /\ last (snd run)
     = Some (Eff.ConsoleError "Decryption failed:" Js.DataError).
Proof.
  intros net.
  apply (bad_key_length_is_refused net 7 initial 200 200 (repeat 1 40)
           {| KeyMaterial.key := repeat 0 31;
              KeyMaterial.iv := repeat 0 12 |}).
  - reflexivity.
  - reflexivity.
  - reflexivity.
  - reflexivity.
  - cbn. discriminate.
  - cbn. discriminate.
  - cbn. discriminate.
Defined.

Lemma decrypt_Some key iv ct p :
  Gcm.decrypt key iv ct = Some p ->
  (16 <= length ct)%nat
  /\ Gcm.tag key iv (take (length ct - 16) ct) = drop (length ct - 16) ct
  /\ p = Gcm.gctr key (Gcm.inc32 (Gcm.j0 key iv)) (take (length ct - 16) ct).
Proof.
  unfold Gcm.decrypt, Gcm.bytes_eqb.
  destruct (Nat.ltb_spec (length ct) 16) as [|Hl]; [discriminate|].
  case_bool_decide as Ht; [|discriminate]. intros [= <-]. auto.
Qed.

(** X11. An envelope of fewer than 28 bytes, the empty one included, is
    never shown, whatever the key route answers: there is no room in it
    for a nonce and a tag. *)
Theorem short_envelope_is_never_shown
    (net : network) (now : Z) (doc : page) (st : Z) (envelope : list Z) :
  get_blob net (video_url now) = Responded st (inr envelope) ->
  (length envelope < 28)%nat ->
  fst (loadAndDisplay net now doc) = failed doc.
Proof.
  intros Hb Hlen.
  destruct (ConsumerFacts.plaintext_only_after_verification net now doc)
    as [[Hf _]|(st1 & st2 & env' & keyData & p & Hb' & _ & _ & _ & Hd & _)];
    [exact Hf|].
  rewrite Hb in Hb'. injection Hb' as _ <-.
  apply decrypt_Some in Hd as [Hl _]. unfold Js.slice_from in Hl.
  rewrite length_drop in Hl. lia.
Qed.

(** Twelve bytes of nonce and fifteen of anything, with a good key. *)
Lemma short_envelope_is_never_shown_witness :
  fst (loadAndDisplay
         (serving (repeat 0 27)
            {| KeyMaterial.key := repeat 0 32;
               KeyMaterial.iv := repeat 0 12 |})
         7 initial)
  = failed initial.
Proof.
  apply (short_envelope_is_never_shown _ 7 initial 200 (repeat 0 27)).
  - reflexivity.
  - cbn. lia.
Defined.

(** The files of the producer, in the terms of its random source. *)
Lemma producer_output fileBuffer g out :
  snd (encryptVideo fileBuffer g) = inr out ->
  let key := drawn g 0 32 in
  let nonce := drawn g 32 12 in
  let c := Gcm.gctr key (Gcm.inc32 (Gcm.j0 key nonce)) fileBuffer in
  encryptedVideo_bin out = nonce ++ c ++ Gcm.tag key nonce c
  /\ encryptionKey_json out
     = {| KeyMaterial.key := key; KeyMaterial.iv := nonce |}.
Proof.
  intros H. pose proof (ProducerFacts.encryptVideo_eq fileBuffer g) as Hp.
  cbn zeta in Hp. rewrite Hp in H. cbn [snd] in H. injection H as <-.
  cbn [encryptedVideo_bin encryptionKey_json]. unfold Gcm.encrypt.
  split; reflexivity.
Qed.

(** A consumer served the key file of the producer and any twelve bytes
    followed by [data]. *)
Lemma served_with_producer_key g prefix data now doc :
  length prefix = 12%nat ->
  let key := drawn g 0 32 in
  let nonce := drawn g 32 12 in
  loadAndDisplay
    (serving (prefix ++ data)
       {| KeyMaterial.key := key; KeyMaterial.iv := nonce |}) now doc
  = let calls :=
      [Eff.Fetch (video_url now); Eff.Fetch key_url;
       Eff.ConsoleLog "IV extracted from file:" prefix;
       Eff.ConsoleLog "IV from encryptionKey.json:" nonce;
       Eff.ImportKey key; Eff.Decrypt nonce key data] in
    match Gcm.decrypt key nonce data with
    | Some plaintext => (rendered doc plaintext, calls)
    | None => (failed doc,
               calls ++ [Eff.ConsoleError "Decryption failed:"
                           Js.OperationError])
    end.
Proof.
  intros Hp key nonce.
  assert (Js.Uint8Array_from key = key) as Hfk
    by apply ProducerFacts.Uint8Array_from_drawn.
  assert (Js.Uint8Array_from nonce = nonce) as Hfn
    by apply ProducerFacts.Uint8Array_from_drawn.
  erewrite (ConsumerFacts.loadAndDisplay_eq _ now doc 200 200);
    [ | apply ConsumerFacts.serving_blob | reflexivity
      | apply ConsumerFacts.serving_json | reflexivity
      | apply ConsumerFacts.importKey_32 ].
  2: { cbn [KeyMaterial.key]. rewrite Hfk. apply ProducerFacts.drawn_length. }
  cbn [KeyMaterial.key KeyMaterial.iv]. rewrite Hfk, Hfn.
  assert (Js.slice_from (prefix ++ data) 12 = data) as ->.
  { unfold Js.slice_from. rewrite <- Hp. apply drop_app_length. }
  assert (Js.slice (prefix ++ data) 0 12 = prefix) as ->.
  { unfold Js.slice. rewrite drop_0, <- Hp. apply take_app_length. }
  unfold Subtle.decrypt. cbn [Subtle.raw].
  assert (length nonce = 12%nat) as -> by apply ProducerFacts.drawn_length.
  cbn [Nat.eqb]. now destruct (Gcm.decrypt key nonce data).
Qed.

(** X12. Changing the tag is noticed: take the envelope the producer wrote
    and replace its last sixteen bytes by sixteen other bytes; served with
    the producer's key file, the result is refused with an
    [OperationError] and nothing is shown. *)
Theorem tampered_tag_is_refused
    (fileBuffer : list Z) (g : rng) (out : files)
    (body t t' : list Z) (now : Z) (doc : page) :
  snd (encryptVideo fileBuffer g) = inr out ->
  encryptedVideo_bin out = body ++ t ->
  length t = 16%nat ->
  length t' = 16%nat ->
  t' <> t ->
  let run := loadAndDisplay (serving (body ++ t') (encryptionKey_json out))
               now doc in
  fst run = failed doc
  /\ last (snd run)
     = Some (Eff.ConsoleError "Decryption failed:" Js.OperationError).
Proof.
  intros Hout Hbin Ht Ht' Hne.
  destruct (producer_output _ _ _ Hout) as [Hb Hk]. cbn zeta in Hb, Hk.
  set (key := drawn g 0 32) in *. set (nonce := drawn g 32 12) in *.
  set (c := Gcm.gctr key (Gcm.inc32 (Gcm.j0 key nonce)) fileBuffer) in *.
  rewrite Hbin in Hb. rewrite app_assoc in Hb.
  apply app_inj_2 in Hb as [-> ->];
    [|now rewrite Ht, CipherFacts.tag_length].
  rewrite Hk, <- app_assoc. cbn zeta.
  pose proof (served_with_producer_key g nonce (c ++ t') now doc
                (ProducerFacts.drawn_length _ _ _)) as Hs.
  cbn zeta in Hs. fold key nonce in Hs. rewrite Hs.
  rewrite CipherFacts.decrypt_split by exact Ht'.
  unfold Gcm.bytes_eqb. rewrite bool_decide_eq_false_2 by congruence.
  cbn [fst snd]. split; [reflexivity|]. now rewrite last_snoc.
Qed.

(** The envelope of [HELLOWORLD] with its last byte changed from 116 to
    117. *)
Lemma tampered_tag_is_refused_witness :
  let g := {| stream := fun i => Z.of_nat (7 * i + 3); pos := 0 |} in
  let key := [3; 10; 17; 24; 31; 38; 45; 52; 59; 66; 73; 80; 87; 94; 101;
              108; 115; 122; 129; 136; 143; 150; 157; 164; 171; 178; 185;
              192; 199; 206; 213; 220] in
  let nonce := [227; 234; 241; 248; 255; 6; 13; 20; 27; 34; 41; 48] in
  let body := nonce ++ [227; 227; 135; 158; 154; 91; 99; 49; 57; 167] in
  let t' := [1; 2; 193; 101; 195; 177; 158; 106; 45; 147; 139; 228; 9;
             139; 240; 117] in
  let run :=
    loadAndDisplay
      (serving (body ++ t')
         {| KeyMaterial.key := key; KeyMaterial.iv := nonce |})
      0 initial in
  fst run = failed initial
  /\ last (snd run)
     = Some (Eff.ConsoleError "Decryption failed:" Js.OperationError).
Proof.
  intros g key nonce body t'.
  apply (tampered_tag_is_refused [72; 69; 76; 76; 79; 87; 79; 82; 76; 68] g
           {| encryptedVideo_bin :=
                body ++ [1; 2; 193; 101; 195; 177; 158; 106; 45; 147; 139;
                         228; 9; 139; 240; 116];
              encryptionKey_json :=
                {| KeyMaterial.key := key; KeyMaterial.iv := nonce |} |}
           body
           [1; 2; 193; 101; 195; 177; 158; 106; 45; 147; 139; 228; 9; 139;
            240; 116]
           t' 0 initial).
  - vm_compute. reflexivity.
  - reflexivity.
  - reflexivity.
  - reflexivity.
  - discriminate.
Defined.

(** X13. Changing the nonce in the envelope is not noticed: take the
    envelope the producer wrote and put any twelve bytes in place of its
    first twelve; served with the producer's key file, the consumer still
    shows the original file.  The nonce that counts is the one of the key
    file. *)
Theorem envelope_prefix_is_not_checked
    (fileBuffer : list Z) (g : rng) (out : files) (prefix : list Z)
    (now : Z) (doc : page) :
  snd (encryptVideo fileBuffer g) = inr out ->
  length prefix = 12%nat ->
  fst (loadAndDisplay
         (serving (prefix ++ drop 12 (encryptedVideo_bin out))
            (encryptionKey_json out)) now doc)
  = rendered doc fileBuffer.
Proof.
  intros Hout Hp.
  destruct (producer_output _ _ _ Hout) as [Hb Hk]. cbn zeta in Hb, Hk.
  set (key := drawn g 0 32) in *. set (nonce := drawn g 32 12) in *.
  rewrite Hb, Hk.
  assert (length nonce = 12%nat) as Hn by apply ProducerFacts.drawn_length.
  rewrite <- Hn at 1. rewrite drop_app_length.
  pose proof (served_with_producer_key g prefix
                (Gcm.encrypt key nonce fileBuffer) now doc Hp) as Hs.
  cbn zeta in Hs. fold key nonce in Hs.
  change (Gcm.gctr key (Gcm.inc32 (Gcm.j0 key nonce)) fileBuffer
            ++ Gcm.tag key nonce
                 (Gcm.gctr key (Gcm.inc32 (Gcm.j0 key nonce)) fileBuffer))
    with (Gcm.encrypt key nonce fileBuffer).
  rewrite Hs. now rewrite CipherFacts.decrypt_encrypt.
Qed.

(** The envelope of [HELLOWORLD] with twelve zero bytes in front. *)
Lemma envelope_prefix_is_not_checked_witness :
  let g := {| stream := fun i => Z.of_nat (7 * i + 3); pos := 0 |} in
  let key := [3; 10; 17; 24; 31; 38; 45; 52; 59; 66; 73; 80; 87; 94; 101;
              108; 115; 122; 129; 136; 143; 150; 157; 164; 171; 178; 185;
              192; 199; 206; 213; 220] in
  let nonce := [227; 234; 241; 248; 255; 6; 13; 20; 27; 34; 41; 48] in
  let ciphertext := [227; 227; 135; 158; 154; 91; 99; 49; 57; 167; 1; 2;
                     193; 101; 195; 177; 158; 106; 45; 147; 139; 228; 9;
                     139; 240; 116] in
  fst (loadAndDisplay
         (serving (repeat 0 12 ++ ciphertext)
            {| KeyMaterial.key := key; KeyMaterial.iv := nonce |})
         0 initial)
  = rendered initial [72; 69; 76; 76; 79; 87; 79; 82; 76; 68].
Proof.
  intros g key nonce ciphertext.
  apply (envelope_prefix_is_not_checked
           [72; 69; 76; 76; 79; 87; 79; 82; 76; 68] g
           {| encryptedVideo_bin := nonce ++ ciphertext;
              encryptionKey_json :=
                {| KeyMaterial.key := key; KeyMaterial.iv := nonce |} |}
           (repeat 0 12) 0 initial).
  - vm_compute. reflexivity.
  - reflexivity.
Defined.

(** X14. Whatever the network serves, a run ends in one of two ways.
    Either the document keeps its video source and display and gets the
    failure message; or both fetches succeeded, the data after byte 12 is
    at least sixteen bytes long and ends with the tag that the cipher
    computes, under the key and nonce of the key material, over what
    precedes, and what is shown is the decryption of exactly that.  No
    byte is shown that the tag did not cover. *)
Theorem nothing_is_shown_unverified
    (net : network) (now : Z) (doc : page) :
  let run := loadAndDisplay net now doc in
  (fst run = failed doc
   /\ videoPlayer_src (fst run) = videoPlayer_src doc
   /\ videoPlayer_display (fst run) = videoPlayer_display doc)
  \/ exists st1 st2 envelope keyData,
       get_blob net (video_url now) = Responded st1 (inr envelope)
       /\ get_json net key_url = Responded st2 (inr keyData)
       /\ let key := Js.Uint8Array_from (KeyMaterial.key keyData) in
          let nonce := Js.Uint8Array_from (KeyMaterial.iv keyData) in
          let data := drop 12 envelope in
          let c := take (length data - 16) data in
          (16 <= length data)%nat
          /\ Gcm.tag key nonce c = drop (length data - 16) data
          /\ fst run
             = rendered doc
                 (Gcm.gctr key (Gcm.inc32 (Gcm.j0 key nonce)) c).
Proof.
  cbn zeta.
  destruct (ConsumerFacts.plaintext_only_after_verification net now doc)
    as [[Hf _]|(st1 & st2 & envelope & keyData & p & Hb & _ & Hj & _ & Hd
                & Hr)].
  - left. rewrite Hf. repeat split.
  - right. exists st1, st2, envelope, keyData.
    apply decrypt_Some in Hd as (Hl & Ht & ->).
    unfold Js.slice_from in *. auto.
Qed.

(** Any network that delivers the two files of the producer makes the
    consumer show the file. *)
Lemma renders_producer_files net now doc st1 st2 fileBuffer g out :
  snd (encryptVideo fileBuffer g) = inr out ->
  get_blob net (video_url now) = Responded st1 (inr (encryptedVideo_bin out)) ->
  ok st1 = true ->
  get_json net key_url = Responded st2 (inr (encryptionKey_json out)) ->
  ok st2 = true ->
  fst (loadAndDisplay net now doc) = rendered doc fileBuffer.
Proof.
  intros Hout Hb Hok1 Hj Hok2.
  destruct (producer_output _ _ _ Hout) as [Hbin Hk]. cbn zeta in Hbin, Hk.
  set (key := drawn g 0 32) in *. set (nonce := drawn g 32 12) in *.
  assert (Js.Uint8Array_from key = key) as Hfk
    by apply ProducerFacts.Uint8Array_from_drawn.
  assert (Js.Uint8Array_from nonce = nonce) as Hfn
    by apply ProducerFacts.Uint8Array_from_drawn.
  assert (length nonce = 12%nat) as Hn by apply ProducerFacts.drawn_length.
  rewrite (ConsumerFacts.loadAndDisplay_eq net now doc st1 st2
             (encryptedVideo_bin out) (encryptionKey_json out)
             {| Subtle.raw := key |} Hb Hok1 Hj Hok2).
  2: { rewrite Hk. cbn [KeyMaterial.key]. rewrite Hfk.
       apply ConsumerFacts.importKey_32, ProducerFacts.drawn_length. }
  rewrite Hk, Hbin. cbn [KeyMaterial.key KeyMaterial.iv].
  rewrite Hfk, Hfn.
  assert (Js.slice_from
            (nonce ++ Gcm.gctr key (Gcm.inc32 (Gcm.j0 key nonce)) fileBuffer
               ++ Gcm.tag key nonce
                    (Gcm.gctr key (Gcm.inc32 (Gcm.j0 key nonce)) fileBuffer))
            12
          = Gcm.encrypt key nonce fileBuffer) as ->.
  { unfold Js.slice_from. rewrite <- Hn. apply drop_app_length. }
  pose proof (ConsumerFacts.subtle_decrypt_encrypt
                {| Subtle.raw := key |} nonce fileBuffer) as Hd.
  cbn [Subtle.raw] in Hd. rewrite Hd; [reflexivity|].
  intros E. now rewrite E in Hn.
Qed.

End ConsumerMore.

(** ** The producer: sizes, and the order of its writes *)

Module ProducerMore.
Import Producer.

Lemma drawn_bytes g k n : Forall (fun b => 0 <= b < 256) (drawn g k n).
Proof.
  unfold drawn. apply Forall_forall. intros b Hb.
  apply list_elem_of_In, in_map_iff in Hb as (i & <- & _).
  apply Z.mod_pos_bound. lia.
Qed.

(** X15. Whatever the file and the random source, the key record holds 32
    key entries and 12 nonce entries, all between 0 and 255, and the
    envelope is exactly 28 bytes longer than the file: 12 of nonce and 16
    of tag. *)
Theorem key_file_and_envelope_sizes (fileBuffer : list Z) (g : rng) :
  exists out,
    snd (encryptVideo fileBuffer g) = inr out
    /\ length (KeyMaterial.key (encryptionKey_json out)) = 32%nat
    /\ length (KeyMaterial.iv (encryptionKey_json out)) = 12%nat
    /\ Forall (fun b => 0 <= b < 256)
         (KeyMaterial.key (encryptionKey_json out)
            ++ KeyMaterial.iv (encryptionKey_json out))
    /\ length (encryptedVideo_bin out) = (length fileBuffer + 28)%nat.
Proof.
  pose proof (ProducerFacts.encryptVideo_eq fileBuffer g) as Hp.
  cbn zeta in Hp. rewrite Hp. cbn [snd]. eexists. split; [reflexivity|].
  cbn [encryptionKey_json encryptedVideo_bin KeyMaterial.key KeyMaterial.iv].
  split; [apply ProducerFacts.drawn_length|].
  split; [apply ProducerFacts.drawn_length|].
  split; [apply Forall_app; split; apply drawn_bytes|].
  rewrite length_app, ProducerFacts.drawn_length,
    CipherFacts.encrypt_length. lia.
Qed.

Lemma encryptVideo_succeeds fileBuffer g :
  exists out, snd (encryptVideo fileBuffer g) = inr out.
Proof.
  pose proof (ProducerFacts.encryptVideo_eq fileBuffer g) as Hp.
  cbn zeta in Hp. rewrite Hp. cbn [snd]. eauto.
Qed.

(** X16. What a run of the script leaves on disk.  If the source cannot
    be read nothing is written.  If the promise is fulfilled both files
    were written, the envelope first, with the contents computed from the
    source, and the two confirmation lines were printed.  If it is
    rejected nothing is printed and the key file was not written. *)
Theorem run_writes_envelope_then_key
    (d : ProducerIO.disk) (filePath : string) (g : rng) :
  let r := ProducerIO.encryptVideo d filePath g in
  (forall e, ProducerIO.readFileSync d filePath = inl e ->
     ProducerIO.written r = [] /\ ProducerIO.rejected r = Some e)
  /\ (ProducerIO.rejected r = None ->
      exists fileBuffer out,
        ProducerIO.readFileSync d filePath = inr fileBuffer
        /\ snd (encryptVideo fileBuffer g) = inr out
        /\ ProducerIO.written r
           = [("encryptedVideo.bin",
               ProducerIO.Binary (encryptedVideo_bin out));
              ("encryptionKey.json",
               ProducerIO.KeyJson (encryptionKey_json out))]
        /\ length (ProducerIO.printed r) = 2%nat)
  /\ (ProducerIO.rejected r <> None ->
      ProducerIO.printed r = []
      /\ forall k,
           ~ In ("encryptionKey.json", ProducerIO.KeyJson k)
               (ProducerIO.written r)).
Proof.
  cbn zeta. unfold ProducerIO.encryptVideo.
  destruct (ProducerIO.readFileSync d filePath) as [e|fileBuffer] eqn:Hr.
  { cbn. split; [intros e' [= <-]; auto|]. split; [discriminate|].
    intros _. split; [reflexivity|]. intros k []. }
  destruct (encryptVideo_succeeds fileBuffer g) as [out Hout].
  rewrite Hout.
  destruct (ProducerIO.write_error d "encryptedVideo.bin") as [e1|].
  { cbn. split; [discriminate|]. split; [discriminate|].
    intros _. split; [reflexivity|]. intros k []. }
  destruct (ProducerIO.write_error d "encryptionKey.json") as [e2|].
  { cbn [ProducerIO.written ProducerIO.printed ProducerIO.rejected].
    split; [discriminate|]. split; [discriminate|].
    intros _. split; [reflexivity|]. intros k [H|[]]. discriminate. }
  cbn [ProducerIO.written ProducerIO.printed ProducerIO.rejected].
  split; [discriminate|]. split; [|congruence].
  intros _. exists fileBuffer, out. auto.
Qed.

(** X17. The envelope is written before the key file.  When the source
    can be read and the envelope can be written but writing
    [encryptionKey.json] fails, the run is rejected with that error and
    leaves the envelope on disk alone: the key it was encrypted under is
    in no file. *)
Theorem key_file_failure_leaves_the_envelope
    (d : ProducerIO.disk) (filePath : string) (g : rng)
    (fileBuffer : list Z) (e : Js.exn) :
  ProducerIO.readFileSync d filePath = inr fileBuffer ->
  ProducerIO.write_error d "encryptedVideo.bin" = None ->
  ProducerIO.write_error d "encryptionKey.json" = Some e ->
  let r := ProducerIO.encryptVideo d filePath g in
  ProducerIO.rejected r = Some e
  /\ ProducerIO.printed r = []
  /\ exists out,
       snd (encryptVideo fileBuffer g) = inr out
       /\ ProducerIO.written r
          = [("encryptedVideo.bin",
              ProducerIO.Binary (encryptedVideo_bin out))].
Proof.
  intros Hr Hw1 Hw2. cbn zeta. unfold ProducerIO.encryptVideo.
  destruct (encryptVideo_succeeds fileBuffer g) as [out Hout].
  rewrite Hr, Hout, Hw1, Hw2.
  cbn [ProducerIO.written ProducerIO.printed ProducerIO.rejected].
  eauto.
Qed.

(** A disk on which only [encryptedVideo.bin] can be written. *)
Lemma key_file_failure_leaves_the_envelope_witness :
  let d :=
    {| ProducerIO.readFileSync := fun _ => inr [72; 73];
       ProducerIO.write_error := fun name =>
         if String.eqb name "encryptedVideo.bin" then None
         else Some (Js.Error "EACCES") |} in
  let g := {| stream := fun i => Z.of_nat i; pos := 0 |} in
  let r := ProducerIO.encryptVideo d "video.mp4" g in
  ProducerIO.rejected r = Some (Js.Error "EACCES")
  /\ ProducerIO.printed r = []
  /\ exists out,
       snd (encryptVideo [72; 73] g) = inr out
       /\ ProducerIO.written r
          = [("encryptedVideo.bin",
              ProducerIO.Binary (encryptedVideo_bin out))].
Proof.
  intros d g.
  apply (key_file_failure_leaves_the_envelope d "video.mp4" g [72; 73]
           (Js.Error "EACCES")).
  - reflexivity.
  - reflexivity.
  - reflexivity.
Defined.

End ProducerMore.

(** ** The key route *)

Module KeyRouteFacts.
Import KeyRoute.

Lemma missing_false v : missing v = false <-> exists s, v = Some s /\ s <> "".
Proof.
  unfold missing. destruct v as [s|].
  - rewrite negb_false_iff, JsFacts.truthy_nonempty. split.
    + intros H. eauto.
    + intros (s' & [= <-] & H). exact H.
  - split; [discriminate|]. intros (s & H & _). discriminate.
Qed.

(** X18. When [ENCRYPTION_KEY] or [ENCRYPTION_IV] is not set, or is set to
    the empty text, the route answers 500 with
    [{error: "Encryption key not configured."}] and parses nothing, not
    even the variable that is set. *)
Theorem missing_secret_is_a_500
    {J : Type} (JSON_parse : string -> Js.exn + J) (env : environment) :
  missing (ENCRYPTION_KEY env) = true \/ missing (ENCRYPTION_IV env) = true ->
  handler JSON_parse env
  = (NotConfigured 500 "Encryption key not configured.", []).
Proof.
  intros H. unfold handler.
  destruct (missing (ENCRYPTION_KEY env)), (missing (ENCRYPTION_IV env));
    try reflexivity.
  destruct H; discriminate.
Qed.

(** The key is set, the nonce is not. *)
Lemma missing_secret_is_a_500_witness :
  handler (fun _ : string => inr (A := Js.exn) [1; 2])
    {| ENCRYPTION_KEY := Some "[1,2]"; ENCRYPTION_IV := None |}
  = (NotConfigured 500 "Encryption key not configured.", []).
Proof.
  apply (missing_secret_is_a_500 (fun _ : string => inr [1; 2])
           {| ENCRYPTION_KEY := Some "[1,2]"; ENCRYPTION_IV := None |}).
  right. reflexivity.
Defined.

(** X19. The route answers with key material exactly when both variables
    are set, neither is empty, and both parse; the status is then 200 and
    the two fields are the parsed values of the two variables, key first.
    In particular a variable that does not parse never yields a partial
    answer. *)
Theorem key_material_is_served_iff
    {J : Type} (JSON_parse : string -> Js.exn + J) (env : environment)
    (st : Z) (key iv : J) :
  fst (handler JSON_parse env) = KeyData st key iv
  <-> st = 200
      /\ exists encryptionKey encryptionIV,
           ENCRYPTION_KEY env = Some encryptionKey /\ encryptionKey <> ""
           /\ ENCRYPTION_IV env = Some encryptionIV /\ encryptionIV <> ""
           /\ JSON_parse encryptionKey = inr key
           /\ JSON_parse encryptionIV = inr iv.
Proof.
  unfold handler. split.
  - destruct (missing (ENCRYPTION_KEY env)) eqn:Hk; [discriminate|].
    destruct (missing (ENCRYPTION_IV env)) eqn:Hi; [discriminate|].
    apply missing_false in Hk as (sk & Hk & Hnk).
    apply missing_false in Hi as (si & Hi & Hni).
    rewrite Hk, Hi. cbn [orb].
    destruct (JSON_parse sk) as [e|k] eqn:Hpk; [discriminate|].
    destruct (JSON_parse si) as [e|i] eqn:Hpi; [discriminate|].
    cbn [fst]. intros [= <- <- <-]. split; [reflexivity|].
    exists sk, si. auto 10.
  - intros (-> & sk & si & Hk & Hnk & Hi & Hni & Hpk & Hpi).
    assert (missing (ENCRYPTION_KEY env) = false) as ->
      by (apply missing_false; eauto).
    assert (missing (ENCRYPTION_IV env) = false) as ->
      by (apply missing_false; eauto).
    rewrite Hk, Hi, Hpk, Hpi. reflexivity.
Qed.

End KeyRouteFacts.

(** ** The page script *)

Module FrontendFacts.
Import Frontend.

Lemma gt_zero_true x : gt_zero x = true <-> exists q, x = Some q /\ (0 < q)%Q.
Proof.
  unfold gt_zero. destruct x as [q|].
  - destruct (Qlt_le_dec 0 q) as [Hlt|Hle]; split.
    + eauto.
    + reflexivity.
    + discriminate.
    + intros (q' & [= <-] & Hlt). exfalso.
      exact (Qlt_not_le _ _ Hlt Hle).
  - split; [discriminate|]. intros (q & H & _). discriminate.
Qed.

(** X20. [checkIfUserHasNFT] answers true exactly when the node returns
    the accounts of the wallet and one of them is for the mint of the NFT
    with an amount above zero.  An account of that mint left with amount 0
    or [null], an account of another mint, an empty list, and any error
    while asking the node all give false. *)
Theorem has_nft_iff (node : rpc) (walletAddress : string) :
  fst (checkIfUserHasNFT node walletAddress) = true
  <-> exists accounts a q,
        node walletAddress = inr accounts
        /\ In a accounts
        /\ mint a = nftMintAddress
        /\ uiAmount a = Some q /\ (0 < q)%Q.
Proof.
  unfold checkIfUserHasNFT.
  destruct (node walletAddress) as [e|accounts]; cbn [fst].
  - split; [discriminate|]. intros (? & ? & ? & H & _). discriminate.
  - rewrite existsb_exists. split.
    + intros (a & Hin & Hh). unfold holds_nft in Hh.
      apply andb_true_iff in Hh as [Hm Hq].
      apply String.eqb_eq in Hm. apply gt_zero_true in Hq as (q & Hq & Hlt).
      exists accounts, a, q. auto.
    + intros (accounts' & a & q & [= <-] & Hin & Hm & Hq & Hlt).
      exists a. split; [exact Hin|]. unfold holds_nft.
      apply andb_true_iff. split; [now apply String.eqb_eq|].
      apply gt_zero_true. eauto.
Qed.

Lemma click_no_wallet w u :
  solana w = None \/ (exists p, solana w = Some p /\ isPhantom p = false) ->
  click w u
  = ({| doc := doc u; button_disabled := false |},
     [Alert "Phantom wallet not detected, please install"]).
Proof.
  intros [H|(p & H & Hp)]; unfold click; rewrite H; [|rewrite Hp];
    reflexivity.
Qed.

Lemma click_connect_fails w u p error :
  solana w = Some p -> isPhantom p = true -> connect p = inl error ->
  click w u
  = ({| doc := set_message "Wallet connection failed" (doc u);
        button_disabled := false |},
     [Connecting; ConsoleError "Wallet connection failed" error]).
Proof.
  intros H Hp Hc. unfold click. rewrite H, Hp, Hc. reflexivity.
Qed.

Lemma click_connected w u p walletAddress :
  solana w = Some p -> isPhantom p = true ->
  connect p = inr walletAddress ->
  click w u
  = let r := checkNFTAndDisplayMessage w walletAddress
               (set_message (String.append "Connected " walletAddress)
                  (doc u)) in
    ({| doc := fst r; button_disabled := false |},
     [Connecting; ConsoleLog "Wallet Address:" walletAddress] ++ snd r).
Proof.
  intros H Hp Hc. unfold click. rewrite H, Hp, Hc. cbn [negb].
  cbn [set_disabled doc button_disabled].
  now destruct (checkNFTAndDisplayMessage _ _ _).
Qed.

Lemma check_without_nft w walletAddress d :
  fst (checkIfUserHasNFT (node w) walletAddress) = false ->
  checkNFTAndDisplayMessage w walletAddress d
  = (set_message "No, you do not have the NFT" d,
     snd (checkIfUserHasNFT (node w) walletAddress)).
Proof.
  intros H. unfold checkNFTAndDisplayMessage.
  destruct (checkIfUserHasNFT (node w) walletAddress) as [b log].
  cbn [fst] in H. now subst b.
Qed.

Lemma check_with_nft w walletAddress d :
  fst (checkIfUserHasNFT (node w) walletAddress) = true ->
  checkNFTAndDisplayMessage w walletAddress d
  = let r := Consumer.loadAndDisplay (net w) (now w)
               (set_message "Yes, you have the NFT" d) in
    (fst r,
     snd (checkIfUserHasNFT (node w) walletAddress) ++ [Loading (snd r)]).
Proof.
  intros H. unfold checkNFTAndDisplayMessage.
  destruct (checkIfUserHasNFT (node w) walletAddress) as [b log].
  cbn [fst] in H. subst b. now destruct (Consumer.loadAndDisplay _ _ _).
Qed.

Lemma check_log_has_no_loading node walletAddress l :
  ~ In (Loading l) (snd (checkIfUserHasNFT node walletAddress)).
Proof.
  unfold checkIfUserHasNFT. destruct (node walletAddress); cbn [snd In].
  - intros [H|[H|[]]]; discriminate.
  - intros [H|[]]. discriminate.
Qed.

(** X21. Without the token there is no video.  If the wallet is absent or
    is not Phantom, if connecting fails, or if the check of the wallet's
    accounts answers false, a click never starts [loadAndDisplay]: neither
    the envelope nor the key is requested, and the video source and the
    display of the player and of its container stay as they were. *)
Theorem no_token_no_video (w : world) (u : ui) :
  (forall p walletAddress,
     solana w = Some p -> isPhantom p = true ->
     connect p = inr walletAddress ->
     fst (checkIfUserHasNFT (node w) walletAddress) = false) ->
  let r := click w u in
  Consumer.videoPlayer_src (doc (fst r)) = Consumer.videoPlayer_src (doc u)
  /\ Consumer.videoPlayer_display (doc (fst r))
     = Consumer.videoPlayer_display (doc u)
  /\ Consumer.videoContainer_display (doc (fst r))
     = Consumer.videoContainer_display (doc u)
  /\ forall l, ~ In (Loading l) (snd r).
Proof.
  intros Hno. cbn zeta.
  destruct (solana w) as [p|] eqn:Hs.
  2: { rewrite click_no_wallet by auto. cbn. repeat split.
       intros l [H|[]]. discriminate. }
  destruct (isPhantom p) eqn:Hp.
  2: { rewrite click_no_wallet by eauto. cbn. repeat split.
       intros l [H|[]]. discriminate. }
  destruct (connect p) as [error|walletAddress] eqn:Hc.
  { rewrite (click_connect_fails w u p error Hs Hp Hc). cbn.
    repeat split. intros l [H|[H|[]]]; discriminate. }
  rewrite (click_connected w u p walletAddress Hs Hp Hc).
  rewrite (check_without_nft w walletAddress _ (Hno p walletAddress
             eq_refl Hp Hc)).
  cbn [fst snd doc set_message Consumer.videoPlayer_src
       Consumer.videoPlayer_display Consumer.videoContainer_display].
  repeat split. intros l [H|[H|H]]; try discriminate.
  exact (check_log_has_no_loading _ _ _ H).
Qed.

(** A wallet whose only account of the mint is empty. *)
Lemma no_token_no_video_witness :
  let w :=
    {| solana := Some {| isPhantom := true; connect := inr "wallet" |};
       node := fun _ => inr [ {| mint := nftMintAddress;
                                 uiAmount := Some 0%Q |} ];
       net := Consumer.serving [] {| KeyMaterial.key := [];
                                     KeyMaterial.iv := [] |};
       now := 0 |} in
  let u := {| doc := Consumer.initial; button_disabled := false |} in
  let r := click w u in
  Consumer.videoPlayer_src (doc (fst r)) = None
  /\ Consumer.videoPlayer_display (doc (fst r)) = "none"
  /\ Consumer.videoContainer_display (doc (fst r)) = "none"
  /\ forall l, ~ In (Loading l) (snd r).
Proof.
  intros w u.
  apply (no_token_no_video w u).
  intros p walletAddress [= <-] _ [= <-]. reflexivity.
Defined.

(** X22. Every click ends with the button enabled, and with the page in
    one of five states: untouched, with the wallet alert shown; or, the
    video source being left as it was, one of the messages
    [Wallet connection failed], [No, you do not have the NFT] and
    [Decryption failed]; or the message
    [Yes, you have the NFT | Video loaded!] with a [video/mp4] blob as the
    video source. *)
Theorem click_outcomes (w : world) (u : ui) :
  let u' := fst (click w u) in
  button_disabled u' = false
  /\ (doc u' = doc u
      \/ (Consumer.videoPlayer_src (doc u')
          = Consumer.videoPlayer_src (doc u)
          /\ (Consumer.message_textContent (doc u')
              = "Wallet connection failed"
              \/ Consumer.message_textContent (doc u')
                 = "No, you do not have the NFT"
              \/ Consumer.message_textContent (doc u')
                 = "❌ Decryption failed."))
      \/ (Consumer.message_textContent (doc u')
          = "Yes, you have the NFT | Video loaded!"
          /\ exists bytes,
               Consumer.videoPlayer_src (doc u')
               = Some {| Consumer.parts := bytes;
                         Consumer.type := "video/mp4" |})).
Proof.
  cbn zeta.
  destruct (solana w) as [p|] eqn:Hs.
  2: { rewrite click_no_wallet by auto. cbn. auto. }
  destruct (isPhantom p) eqn:Hp.
  2: { rewrite click_no_wallet by eauto. cbn. auto. }
  destruct (connect p) as [error|walletAddress] eqn:Hc.
  { rewrite (click_connect_fails w u p error Hs Hp Hc). cbn.
    split; [reflexivity|]. right. left. auto. }
  rewrite (click_connected w u p walletAddress Hs Hp Hc).
  cbn [fst doc button_disabled]. split; [reflexivity|].
  destruct (fst (checkIfUserHasNFT (node w) walletAddress)) eqn:Hn.
  2: { rewrite (check_without_nft w walletAddress _ Hn). cbn.
       right. left. auto. }
  rewrite (check_with_nft w walletAddress _ Hn). cbn [fst].
  destruct (ConsumerFacts.plaintext_only_after_verification (net w) (now w)
              (set_message "Yes, you have the NFT"
                 (set_message (String.append "Connected " walletAddress)
                    (doc u))))
    as [[Hf _]|(st1 & st2 & envelope & keyData & plaintext & _ & _ & _ & _
                & _ & Hr)].
  - right. left. rewrite Hf. cbn. auto.
  - right. right. rewrite Hr. cbn. split; [reflexivity|]. eauto.
Qed.

(** X23. The holder of the token sees the file.  With Phantom present,
    the connection accepted, an account of the mint with an amount above
    zero, and a network that delivers the two files the producer wrote, a
    click leaves the decrypted file as the video source, the player and
    its container displayed, the message
    [Yes, you have the NFT | Video loaded!] and the button enabled. *)
Theorem holder_sees_the_file
    (fileBuffer : list Z) (g : Producer.rng) (out : Producer.files)
    (w : world) (u : ui) (p : provider) (walletAddress : string)
    (accounts : list token_account) (a : token_account) (st1 st2 : Z) :
  snd (Producer.encryptVideo fileBuffer g) = inr out ->
  solana w = Some p -> isPhantom p = true ->
  connect p = inr walletAddress ->
  node w walletAddress = inr accounts ->
  In a accounts -> holds_nft a = true ->
  Consumer.get_blob (net w) (Consumer.video_url (now w))
  = Consumer.Responded st1 (inr (Producer.encryptedVideo_bin out)) ->
  Consumer.ok st1 = true ->
  Consumer.get_json (net w) Consumer.key_url
  = Consumer.Responded st2 (inr (Producer.encryptionKey_json out)) ->
  Consumer.ok st2 = true ->
  fst (click w u)
  = {| doc :=
         {| Consumer.message_textContent :=
              "Yes, you have the NFT | Video loaded!";
            Consumer.videoPlayer_src :=
              Some {| Consumer.parts := fileBuffer;
                      Consumer.type := "video/mp4" |};
            Consumer.videoPlayer_display := "block";
            Consumer.videoContainer_display := "block" |};
       button_disabled := false |}.
Proof.
  intros Hout Hs Hp Hc Hn Hin Hh Hb Hok1 Hj Hok2.
  rewrite (click_connected w u p walletAddress Hs Hp Hc). cbn [fst].
  assert (fst (checkIfUserHasNFT (node w) walletAddress) = true) as Hy.
  { unfold checkIfUserHasNFT. rewrite Hn. cbn [fst].
    apply existsb_exists. eauto. }
  rewrite (check_with_nft w walletAddress _ Hy). cbn [fst].
  rewrite (ConsumerMore.renders_producer_files (net w) (now w) _ st1 st2
             fileBuffer g out Hout Hb Hok1 Hj Hok2).
  reflexivity.
Qed.

Lemma holder_sees_the_file_witness :
  let g := {| Producer.stream := fun i => Z.of_nat (7 * i + 3);
              Producer.pos := 0 |} in
  let out :=
    {| Producer.encryptedVideo_bin :=
         [227; 234; 241; 248; 255; 6; 13; 20; 27; 34; 41; 48; 227; 227;
          135; 158; 154; 91; 99; 49; 57; 167; 1; 2; 193; 101; 195; 177; 158;
          106; 45; 147; 139; 228; 9; 139; 240; 116];
       Producer.encryptionKey_json :=
         {| KeyMaterial.key :=
              [3; 10; 17; 24; 31; 38; 45; 52; 59; 66; 73; 80; 87; 94; 101;
               108; 115; 122; 129; 136; 143; 150; 157; 164; 171; 178; 185;
               192; 199; 206; 213; 220];
            KeyMaterial.iv :=
              [227; 234; 241; 248; 255; 6; 13; 20; 27; 34; 41; 48] |} |} in
  let held := {| mint := nftMintAddress; uiAmount := Some 1%Q |} in
  let w :=
    {| solana := Some {| isPhantom := true; connect := inr "wallet" |};
       node := fun _ => inr [held];
       net := Consumer.serving (Producer.encryptedVideo_bin out)
                (Producer.encryptionKey_json out);
       now := 0 |} in
  let u := {| doc := Consumer.initial; button_disabled := false |} in
  fst (click w u)
  = {| doc :=
         {| Consumer.message_textContent :=
              "Yes, you have the NFT | Video loaded!";
            Consumer.videoPlayer_src :=
              Some {| Consumer.parts := [72; 69; 76; 76; 79; 87; 79; 82; 76;
                                         68];
                      Consumer.type := "video/mp4" |};
            Consumer.videoPlayer_display := "block";
            Consumer.videoContainer_display := "block" |};
       button_disabled := false |}.
Proof.
  intros g out held w u.
  apply (holder_sees_the_file [72; 69; 76; 76; 79; 87; 79; 82; 76; 68] g out
           w u {| isPhantom := true; connect := inr "wallet" |} "wallet"
           [held] held 200 200).
  - vm_compute. reflexivity.
  - reflexivity.
  - reflexivity.
  - reflexivity.
  - reflexivity.
  - left. reflexivity.
  - reflexivity.
  - reflexivity.
  - reflexivity.
  - reflexivity.
  - reflexivity.
Defined.

End FrontendFacts.

(** ** The consumer in front of the proxy *)

Module PipelineFacts.
Import IpfsProxy Pipeline IpfsProxyFacts.

Lemma substring_all (s : string) : String.substring 0 (String.length s) s = s.
Proof. induction s as [|c s IH]; cbn; [reflexivity|now rewrite IH]. Qed.

Lemma prefix_append (a x : string) :
  String.prefix a (String.append a x) = true.
Proof.
  induction a as [|c a IH].
  - now destruct x.
  - change (String.append (String c a) x)
      with (String c (String.append a x)).
    cbn [String.prefix]. now destruct (ascii_dec c c).
Qed.

Lemma length_append (a x : string) :
  String.length (String.append a x)
  = (String.length a + String.length x)%nat.
Proof.
  induction a as [|c a IH]; [reflexivity|].
  change (String.append (String c a) x) with (String c (String.append a x)).
  cbn [String.length Nat.add]. now rewrite IH.
Qed.

Lemma substring_append (a x : string) (m : nat) :
  String.substring (String.length a) m (String.append a x)
  = String.substring 0 m x.
Proof.
  induction a as [|c a IH]; [reflexivity|].
  change (String.append (String c a) x) with (String c (String.append a x)).
  exact IH.
Qed.

Lemma query_of_route (x : string) :
  query_of (String.append route x) = get x.
Proof.
  unfold query_of, get. f_equal.
  rewrite prefix_append, length_append, substring_append. f_equal.
  replace (String.length route + String.length x - String.length route)%nat
    with (String.length x) by lia.
  apply substring_all.
Qed.

(** The address the consumer builds is the route followed by the
    identifier and the time stamp. *)
Lemma video_url_is_route now :
  Consumer.video_url now = String.append route (requested_cid now).
Proof. reflexivity. Qed.

Lemma query_of_video_url now :
  query_of (Consumer.video_url now) = get (requested_cid now).
Proof. rewrite video_url_is_route. apply query_of_route. Qed.

Lemma to_string_inj a b : Js.to_string a = Js.to_string b -> a = b.
Proof.
  unfold Js.to_string. intros H. apply DecimalZ.to_int_inj.
  assert (forall z, Z.to_int z <> Decimal.Pos Decimal.Nil
                    /\ Z.to_int z <> Decimal.Neg Decimal.Nil) as Hnn.
  { intros [|q|q]; cbn; split; try discriminate.
    - intros [= E]. exact (DecimalPos.Unsigned.to_uint_nonnil _ E).
    - intros [= E]. exact (DecimalPos.Unsigned.to_uint_nonnil _ E). }
  destruct (Hnn a) as [Ha1 Ha2]. destruct (Hnn b) as [Hb1 Hb2].
  pose proof (NilZero.isi _ Ha1 Ha2) as Ia.
  pose proof (NilZero.isi _ Hb1 Hb2) as Ib.
  rewrite H in Ia. congruence.
Qed.

Lemma append_inj_l (a x y : string) :
  String.append a x = String.append a y -> x = y.
Proof.
  induction a as [|c a IH]; [auto|].
  change (String.append (String c a) ?z) with (String c (String.append a z)).
  intros [= H]. auto.
Qed.

Lemma requested_cid_inj a b : requested_cid a = requested_cid b -> a = b.
Proof.
  unfold requested_cid. intros H.
  apply append_inj_l, append_inj_l in H. now apply to_string_inj.
Qed.

Lemma requested_cid_nonempty now : requested_cid now <> "".
Proof. unfold requested_cid. discriminate. Qed.

Lemma miss_asks_upstream fetch now cid cache :
  cid <> "" -> valid_entry cache cid now = None ->
  out_upstream (handler fetch now (get cid) cache) = [ipfsUrl cid].
Proof.
  intros Hc Hv.
  destruct (fetch (ipfsUrl cid)) as [m|st ctype buffer] eqn:Hf.
  { now rewrite (handler_rejected _ _ _ _ m). }
  destruct (ok st) eqn:Hok.
  2: { now rewrite (handler_not_ok _ _ _ _ st ctype buffer). }
  destruct buffer as [bytes|m].
  - now rewrite (handler_fetched _ _ _ _ st ctype bytes).
  - now rewrite (handler_body_rejected _ _ _ _ st ctype m).
Qed.

(** X24. The time stamp that [loadAndDisplay] appends to the address
    against caching ends up inside the [cid] the route reads, so two loads
    made at different milliseconds ask for two different identifiers.  The
    entry the first load leaves in the cache is never used for the second:
    if the cache had nothing under the second identifier before, the
    second load makes the proxy ask the gateway again, however soon it
    comes. *)
Theorem time_stamp_defeats_the_cache
    (gateway1 gateway2 : string -> fetch_result) (t1 t2 now1 now2 : Z)
    (cache : gmap string CacheEntry) :
  now1 <> now2 ->
  cache !! requested_cid now2 = None ->
  let first :=
    handler gateway1 t1 (query_of (Consumer.video_url now1)) cache in
  let second :=
    handler gateway2 t2 (query_of (Consumer.video_url now2))
      (out_cache first) in
  requested_cid now1 <> requested_cid now2
  /\ out_upstream second = [ipfsUrl (requested_cid now2)].
Proof.
  intros Hne Hnone. cbn zeta. rewrite !query_of_video_url.
  assert (requested_cid now1 <> requested_cid now2) as Hcid
    by (intros E; apply Hne, requested_cid_inj, E).
  split; [exact Hcid|].
  apply miss_asks_upstream; [apply requested_cid_nonempty|].
  unfold valid_entry.
  rewrite (ProxyLogFacts.other_entries_are_untouched_aux gateway1 t1
             (get (requested_cid now1)) cache (requested_cid now2)).
  - now rewrite Hnone.
  - unfold get. cbn [query_cid]. intros E. apply Hcid. congruence.
Qed.

(** Two loads one millisecond apart, the gateway answering both. *)
Lemma time_stamp_defeats_the_cache_witness :
  let up := fun _ : string => FetchResponse 200 None (BodyBytes [1]) in
  let first := handler up 50 (query_of (Consumer.video_url 1)) ∅ in
  let second :=
    handler up 51 (query_of (Consumer.video_url 2)) (out_cache first) in
  requested_cid 1 <> requested_cid 2
  /\ out_upstream second = [ipfsUrl (requested_cid 2)].
Proof.
  intros up.
  apply (time_stamp_defeats_the_cache up up 50 51 1 2 ∅).
  - discriminate.
  - vm_compute. reflexivity.
Defined.

(** X25. From the producer to the page through the proxy.  When the
    gateway holds, under the identifier the consumer asks for, the envelope
    the producer wrote, and the cache has no valid entry for it, a consumer
    whose address [/api/ipfsProxy] is the handler and whose key route
    serves the producer's key file shows exactly the file: the proxy hands
    the bytes on unchanged, with status 200 whatever success status the
    gateway gave. *)
Theorem file_travels_through_the_proxy
    (fileBuffer : list Z) (g : Producer.rng) (out : Producer.files)
    (json_text : string -> list Z) (gateway : string -> fetch_result)
    (st : Z) (ctype : option string) (server_now : Z)
    (cache : gmap string CacheEntry) (now : Z) (doc : Consumer.page) :
  snd (Producer.encryptVideo fileBuffer g) = inr out ->
  valid_entry cache (requested_cid now) server_now = None ->
  gateway (ipfsUrl (requested_cid now))
  = FetchResponse st ctype (BodyBytes (Producer.encryptedVideo_bin out)) ->
  ok st = true ->
  fst (Consumer.loadAndDisplay
         (behind_proxy json_text gateway server_now cache
            (Consumer.Responded 200
               (inr (Producer.encryptionKey_json out))))
         now doc)
  = Consumer.rendered doc fileBuffer.
Proof.
  intros Hout Hv Hg Hok.
  apply (ConsumerMore.renders_producer_files _ now doc 200 200 fileBuffer g
           out Hout); try reflexivity.
  cbn [Consumer.get_blob behind_proxy]. rewrite query_of_video_url.
  rewrite (handler_fetched gateway server_now (requested_cid now) cache st
             ctype _ (requested_cid_nonempty now) Hv Hg Hok).
  reflexivity.
Qed.

Lemma file_travels_through_the_proxy_witness :
  let g := {| Producer.stream := fun i => Z.of_nat (7 * i + 3);
              Producer.pos := 0 |} in
  let envelope :=
    [227; 234; 241; 248; 255; 6; 13; 20; 27; 34; 41; 48; 227; 227; 135;
     158; 154; 91; 99; 49; 57; 167; 1; 2; 193; 101; 195; 177; 158; 106; 45;
     147; 139; 228; 9; 139; 240; 116] in
  let keyData :=
    {| KeyMaterial.key :=
         [3; 10; 17; 24; 31; 38; 45; 52; 59; 66; 73; 80; 87; 94; 101; 108;
          115; 122; 129; 136; 143; 150; 157; 164; 171; 178; 185; 192; 199;
          206; 213; 220];
       KeyMaterial.iv :=
         [227; 234; 241; 248; 255; 6; 13; 20; 27; 34; 41; 48] |} in
  let gateway := fun _ : string =>
    FetchResponse 206 None (BodyBytes envelope) in
  fst (Consumer.loadAndDisplay
         (behind_proxy (fun _ => []) gateway 50 ∅
            (Consumer.Responded 200 (inr keyData)))
         7 Consumer.initial)
  = Consumer.rendered Consumer.initial
      [72; 69; 76; 76; 79; 87; 79; 82; 76; 68].
Proof.
  intros g envelope keyData gateway.
  apply (file_travels_through_the_proxy
           [72; 69; 76; 76; 79; 87; 79; 82; 76; 68] g
           {| Producer.encryptedVideo_bin := envelope;
              Producer.encryptionKey_json := keyData |}
           (fun _ => []) gateway 206 None 50 ∅ 7 Consumer.initial).
  - vm_compute. reflexivity.
  - vm_compute. reflexivity.
  - reflexivity.
  - reflexivity.
Defined.

End PipelineFacts.
